(** * sqlite-tui: access resolution, discovery, locking, query gating, CLI guards

    A shallow embedding of the server-side core of sqlite-tui (Go) and the
    properties its specification states about it.

    Conventions of the embedding:
    - a Go [string] is a sequence of bytes: [String.string];
    - a nillable pointer [*T] is [option T];
    - a Go [map[string]T] is [gmap string T]; the order in which [range]
      visits a map is left open by Go and is a parameter here ([MapRange]);
    - functions of the Go standard library and of third-party packages
      (strings.TrimSpace, strings.ToUpper, doublestar.Match, filepath.Base)
      are parameters ([GoLib]);
    - the SQLite engine and the history store are an environment: every
      contact with them is recorded in a trace of [Event]s and their answers
      come from an oracle ([Engine]) that sees the trace so far. *)

From Stdlib Require Import Ascii String ZArith Lia.
From stdpp Require Import base option list gmap strings fin_maps fin_sets pretty.

Local Open Scope string_scope.
Local Open Scope Z_scope.

(** ** Bytes and strings *)

(** The double-quote byte, written by its code. *)
Definition dquote : ascii := ascii_of_nat 34.

(** [len(s)] as a Go [int]. *)
Definition len (s : string) : Z := Z.of_nat (String.length s).

(** [s[i:j]] for [0 <= i <= j <= len(s)]. *)
Definition slice (s : string) (i j : Z) : string :=
  String.substring (Z.to_nat i) (Z.to_nat (j - i)) s.

(** ASCII upper-casing of one byte: [if c >= 'a' && c <= 'z' { c - 32 }]. *)
Definition upperByte (c : ascii) : ascii :=
  let n := nat_of_ascii c in
  if ((97 <=? n) && (n <=? 122))%nat then ascii_of_nat (n - 32) else c.

Fixpoint mapBytes (f : ascii -> ascii) (s : string) : string :=
  match s with
  | EmptyString => EmptyString
  | String c s' => String (f c) (mapBytes f s')
  end.

(** [strings.ReplaceAll(s, string(old), new)] for a one-byte [old]. *)
Fixpoint replaceByte (old : ascii) (new : string) (s : string) : string :=
  match s with
  | EmptyString => EmptyString
  | String c s' =>
      if Ascii.eqb c old then new ++ replaceByte old new s'
      else String c (replaceByte old new s')
  end.

(** [strings.Contains(s, string(c))] for a one-byte needle. *)
Fixpoint containsByte (c : ascii) (s : string) : bool :=
  match s with
  | EmptyString => false
  | String c' s' => Ascii.eqb c' c || containsByte c s'
  end.

(** The byte ['*']. *)
Definition star : ascii := ascii_of_nat 42.

(** [strings.TrimSuffix(s, suffix)]. *)
Definition trimSuffix (s suffix : string) : string :=
  let n := String.length s in
  let k := String.length suffix in
  if ((k <=? n)%nat && String.eqb (String.substring (n - k) k s) suffix)%bool
  then String.substring 0 (n - k) s
  else s.

(** ** Library functions taken as parameters *)

Class GoLib := {
  (** [strings.TrimSpace] *)
  TrimSpace : string -> string;
  (** [strings.ToUpper] *)
  ToUpper : string -> string;
  (** [doublestar.Match(pattern, name)], the error result dropped as the
      callers do ([matched, _ := ...]) *)
  doublestar_Match : string -> string -> bool;
  (** [doublestar.PathMatch(pattern, name)] *)
  doublestar_PathMatch : string -> string -> bool;
  (** [filepath.Base] *)
  filepath_Base : string -> string;
  (** [filepath.Ext] *)
  filepath_Ext : string -> string;
  (** [strconv.Atoi]; [None] for an error *)
  Atoi : string -> option Z;
}.

(** [strings.ToLower], used by the parsing of levels. *)
Class GoText := { ToLower : string -> string }.

(** [encoding/json]: decoding an object into a [map[string]any] (or the
    text of the error), and the text [json.Encoder] writes for an object. *)
Class GoJSON (V : Type) := {
  json_Unmarshal : string -> gmap string V + string;
  json_Encode : list (string * V) -> string;
}.

(** ** Package access *)

Module access.

(** [type Level int] with the constants [None, ReadOnly, ReadWrite, Admin]
    numbered by [iota]. *)
Inductive Level := LevelNone | ReadOnly | ReadWrite | Admin.

#[export] Instance Level_eq_dec : EqDecision Level.
Proof. solve_decision. Defined.

Definition Level_int (l : Level) : Z :=
  match l with
  | LevelNone => 0
  | ReadOnly => 1
  | ReadWrite => 2
  | Admin => 3
  end.

Definition CanRead (l : Level) : bool := Level_int ReadOnly <=? Level_int l.
Definition CanWrite (l : Level) : bool := Level_int ReadWrite <=? Level_int l.
Definition CanAdmin (l : Level) : bool := Level_int Admin <=? Level_int l.
Definition CanDownload (l : Level) : bool := Level_int ReadOnly <=? Level_int l.

(** [func (l Level) String() string] *)
Definition Level_String (l : Level) : string :=
  match l with
  | LevelNone => "none"
  | ReadOnly => "read-only"
  | ReadWrite => "read-write"
  | Admin => "admin"
  end.

(** [ParseLevel]: the [switch] over the lower-cased, trimmed text. *)
Definition ParseLevel {L : GoLib} {T : GoText} (s : string) : Level :=
  let key := ToLower (TrimSpace s) in
  if String.eqb key "none" || String.eqb key "no-access" then LevelNone
  else if String.eqb key "read-only" || String.eqb key "readonly" || String.eqb key "ro"
  then ReadOnly
  else if String.eqb key "read-write" || String.eqb key "readwrite" || String.eqb key "rw"
  then ReadWrite
  else if String.eqb key "admin" then Admin
  else LevelNone.

Record UserInfo := {
  Name : string;
  IsAdmin : bool;
  PublicKeyFP : string;
  IsAnonymous : bool;
  AnonymousName : string;
  RemoteAddr : string;
}.

(** [func (u *UserInfo) DisplayName() string], defined on the nil pointer. *)
Definition DisplayName (u : option UserInfo) : string :=
  match u with
  | None => "unknown"
  | Some u => if IsAnonymous u then AnonymousName u else Name u
  end.

Record Rule := { Pattern : string; Level_ : Level }.

Record Resolver := {
  AnonymousAccess : Level;
  PublicRules : list Rule;
  UserRules : gmap string (list Rule);
  Admins : gmap string bool;
}.

Definition NewResolver : Resolver :=
  {| AnonymousAccess := LevelNone; PublicRules := []; UserRules := ∅; Admins := ∅ |}.

Definition SetAnonymousAccess (r : Resolver) (level : Level) : Resolver :=
  {| AnonymousAccess := level; PublicRules := PublicRules r;
     UserRules := UserRules r; Admins := Admins r |}.

Definition AddAdmin (r : Resolver) (username : string) : Resolver :=
  {| AnonymousAccess := AnonymousAccess r; PublicRules := PublicRules r;
     UserRules := UserRules r; Admins := <[username := true]> (Admins r) |}.

Definition AddPublicRule (r : Resolver) (pattern : string) (level : Level) : Resolver :=
  {| AnonymousAccess := AnonymousAccess r;
     PublicRules := (PublicRules r ++ [ {| Pattern := pattern; Level_ := level |} ])%list;
     UserRules := UserRules r; Admins := Admins r |}.

Definition AddUserRule (r : Resolver) (username pattern : string) (level : Level) : Resolver :=
  {| AnonymousAccess := AnonymousAccess r; PublicRules := PublicRules r;
     UserRules :=
       <[username := (default [] (UserRules r !! username)
                      ++ [ {| Pattern := pattern; Level_ := level |} ])%list]> (UserRules r);
     Admins := Admins r |}.

(** [r.Admins[name]]: a missing key reads as [false]. *)
Definition isListedAdmin (r : Resolver) (name : string) : bool :=
  default false (Admins r !! name).

Section Matching.
Context {L : GoLib}.

Definition matchPattern (pattern dbPath dbAlias : string) : bool :=
  let pattern := TrimSpace pattern in
  let dbPath := TrimSpace dbPath in
  let dbAlias := TrimSpace dbAlias in
  if negb (String.eqb dbAlias "") && String.eqb pattern dbAlias then true
  else if negb (String.eqb dbAlias "") && doublestar_Match pattern dbAlias then true
  else if negb (String.eqb dbPath "") && String.eqb pattern dbPath then true
  else if negb (String.eqb dbPath "") && doublestar_Match pattern dbPath then true
  else if negb (String.eqb dbPath "")
          && doublestar_Match pattern (filepath_Base dbPath) then true
  else if containsByte star pattern && doublestar_PathMatch pattern dbPath then true
  else false.

(** The first matching rule's level; [LevelNone] when no rule matches. *)
Fixpoint matchRules (rules : list Rule) (dbPath dbAlias : string) : Level :=
  match rules with
  | [] => LevelNone
  | rule :: rest =>
      if matchPattern (Pattern rule) dbPath dbAlias then Level_ rule
      else matchRules rest dbPath dbAlias
  end.

(** [if level := ...; level != None { return level }]: the level that is
    returned early, if any. *)
Definition returnedUnlessNone (level : Level) : option Level :=
  if bool_decide (level = LevelNone) then None else Some level.

Definition Resolve (r : Resolver) (user : option UserInfo) (dbPath dbAlias : string) : Level :=
  (* 1. admin, by flag or by the admin list *)
  if match user with Some u => IsAdmin u | None => false end then Admin
  else if match user with
          | Some u => negb (IsAnonymous u) && isListedAdmin r (Name u)
          | None => false
          end then Admin
  else
    (* 2. user-specific rules *)
    match
      match user with
      | Some u =>
          if negb (IsAnonymous u) then
            match UserRules r !! Name u with
            | Some rules => returnedUnlessNone (matchRules rules dbPath dbAlias)
            | None => None
            end
          else None
      | None => None
      end
    with
    | Some level => level
    | None =>
        (* 3. public rules *)
        match returnedUnlessNone (matchRules (PublicRules r) dbPath dbAlias) with
        | Some level => level
        | None =>
            (* 4. anonymous access level *)
            AnonymousAccess r
        end
    end.

(** [ListAccessibleDatabases] works on the package's own [DatabaseInfo]. *)
Record DatabaseInfo := {
  DatabaseInfo_Path : string;
  DatabaseInfo_Alias : string;
  DatabaseInfo_AccessLevel : Level;
}.

Definition CanAccess (r : Resolver) (user : option UserInfo) (dbPath dbAlias : string) : bool :=
  CanRead (Resolve r user dbPath dbAlias).

Fixpoint ListAccessibleDatabases (r : Resolver) (user : option UserInfo)
    (databases : list DatabaseInfo) : list DatabaseInfo :=
  match databases with
  | [] => []
  | db :: rest =>
      let level := Resolve r user (DatabaseInfo_Path db) (DatabaseInfo_Alias db) in
      if CanRead level then
        {| DatabaseInfo_Path := DatabaseInfo_Path db;
           DatabaseInfo_Alias := DatabaseInfo_Alias db;
           DatabaseInfo_AccessLevel := level |}
        :: ListAccessibleDatabases r user rest
      else ListAccessibleDatabases r user rest
  end.

End Matching.

End access.

(** ** Iteration over maps *)

(** Go does not fix the order in which [for k, v := range m] visits the
    entries of a map; it visits each entry once.  [rangeMap] is that order. *)
Class MapRange := {
  rangeMap : forall {V : Type}, gmap string V -> list (string * V);
  rangeMap_perm : forall (V : Type) (m : gmap string V), rangeMap m ≡ₚ map_to_list m;
}.

(** One admissible order: the one of stdpp's [map_to_list]. *)
Definition MapRange_default : MapRange :=
  {| rangeMap := fun V m => map_to_list m;
     rangeMap_perm := fun V m => reflexivity (map_to_list m) |}.

(** ** Package config (the part the database package uses) *)

Module config.

Record DatabaseSource := {
  Path : string;
  Alias : string;
  Description : string;
  Recursive : bool;
}.

Record AccessRule := { AccessRule_Pattern : string; AccessRule_Level : string }.

Record User := {
  User_Name : string;
  User_Admin : bool;
  PublicKeys : list string;
  Access : list AccessRule;
}.

Record PublicDatabase := { PublicDatabase_Pattern : string; PublicDatabase_Level : string }.

(** The fields of [Config] that the access rules and discovery are built
    from. *)
Record Config := {
  Databases : list DatabaseSource;
  AnonymousAccess : string;
  AllowKeyless : bool;
  Users : list User;
  Public : list PublicDatabase;
}.

Section Building.
Context {L : GoLib} {T : GoText}.

Definition AccessRule_ToAccessRule (r : AccessRule) : access.Rule :=
  {| access.Pattern := AccessRule_Pattern r;
     access.Level_ := access.ParseLevel (AccessRule_Level r) |}.

Definition PublicDatabase_ToAccessRule (p : PublicDatabase) : access.Rule :=
  {| access.Pattern := PublicDatabase_Pattern p;
     access.Level_ := access.ParseLevel (PublicDatabase_Level p) |}.

(** The body of the loop over [c.Users]. *)
Definition addUser (resolver : access.Resolver) (user : User) : access.Resolver :=
  let resolver := if User_Admin user then access.AddAdmin resolver (User_Name user)
                  else resolver in
  foldl (fun resolver rule =>
           access.AddUserRule resolver (User_Name user) (AccessRule_Pattern rule)
             (access.ParseLevel (AccessRule_Level rule)))
        resolver (Access user).

Definition BuildResolver (c : Config) : access.Resolver :=
  let resolver := access.SetAnonymousAccess access.NewResolver
                    (access.ParseLevel (AnonymousAccess c)) in
  let resolver :=
    foldl (fun resolver pub =>
             access.AddPublicRule resolver (PublicDatabase_Pattern pub)
               (access.ParseLevel (PublicDatabase_Level pub)))
          resolver (Public c) in
  foldl addUser resolver (Users c).

(** [FindUserByPublicKey]: the first user one of whose keys is the
    fingerprint. *)
Definition FindUserByPublicKey (c : Config) (keyFingerprint : string) : option User :=
  List.find (fun user => existsb (fun key => String.eqb key keyFingerprint) (PublicKeys user))
            (Users c).

End Building.

End config.

(** ** Package database: the lock manager *)

Module database.
Import access.

Record LockError := {
  LockError_Database : string;
  LockError_HeldBy : string;
  LockError_Since : Z;
}.

Record LockInfo := {
  HeldBy : string;
  SessionID : string;
  Since : Z;
}.

Record LockManager := { locks : gmap string LockInfo }.

Definition NewLockManager : LockManager := {| locks := ∅ |}.

(** [TryLock]; [now] is the reading of [time.Now()] taken when a new entry is
    installed.  The result is [None] for a nil error. *)
Definition TryLock (lm : LockManager) (dbPath holder sessionID : string) (now : Z)
    : option LockError * LockManager :=
  match locks lm !! dbPath with
  | Some info =>
      if String.eqb (SessionID info) sessionID then (None, lm)
      else (Some {| LockError_Database := dbPath;
                    LockError_HeldBy := HeldBy info;
                    LockError_Since := Since info |}, lm)
  | None =>
      (None,
       {| locks := <[dbPath := {| HeldBy := holder; SessionID := sessionID; Since := now |}]>
                     (locks lm) |})
  end.

Definition Unlock (lm : LockManager) (dbPath sessionID : string) : LockManager :=
  match locks lm !! dbPath with
  | Some info =>
      if String.eqb (SessionID info) sessionID
      then {| locks := delete dbPath (locks lm) |}
      else lm
  | None => lm
  end.

Definition IsLocked (lm : LockManager) (dbPath : string) : bool :=
  bool_decide (is_Some (locks lm !! dbPath)).

Definition GetLockInfo (lm : LockManager) (dbPath : string) : option LockInfo :=
  locks lm !! dbPath.

Definition ReleaseAllForSession (lm : LockManager) (sessionID : string) : LockManager :=
  {| locks := filter (fun kv => negb (String.eqb (SessionID kv.2) sessionID) = true) (locks lm) |}.

(** [ListLocks]: a copy of the table. *)
Definition ListLocks (lm : LockManager) : gmap string LockInfo :=
  (fun v => {| HeldBy := HeldBy v; SessionID := SessionID v; Since := Since v |}) <$> locks lm.

(** [WithWriteLock].  The closure [fn] may reach the lock manager and any
    other state [S] of its caller; it returns an error or nil.  The result is
    the lock error, or the error of [fn]. *)
Definition WithWriteLock {S Err : Type} (lm : LockManager) (dbPath holder sessionID : string)
    (now : Z) (fn : LockManager -> S -> option Err * LockManager * S) (st : S)
    : option (LockError + Err) * LockManager * S :=
  match TryLock lm dbPath holder sessionID now with
  | (Some err, lm1) => (Some (inl err), lm1, st)
  | (None, lm1) =>
      let '(err, lm2, st') := fn lm1 st in
      (* the deferred Unlock *)
      (inr <$> err, Unlock lm2 dbPath sessionID, st')
  end.

(** [contains] and [containsAt] of lock.go, with Go's [int] arithmetic. *)
Definition containsAt (s substr : string) : bool :=
  existsb (fun i => String.eqb (slice s i (i + len substr)) substr)
          (seqZ 0 (len s - len substr + 1)).

Definition contains (s substr : string) : bool :=
  (len substr <=? len s) && (String.eqb s substr || ((0 <? len s) && containsAt s substr)).

Definition IsWALLockError (err : option string) : bool :=
  match err with
  | None => false
  | Some errStr =>
      contains errStr "database is locked"
      || contains errStr "SQLITE_BUSY"
      || contains errStr "SQLITE_LOCKED"
  end.

(** ** Package database: identifiers *)

(** [quoteIdentifier]: a double quote, then [name] with every double quote
    replaced by two ([strings.ReplaceAll]), then a double quote. *)
Definition quoteIdentifier (name : string) : string :=
  String dquote (replaceByte dquote (String dquote (String dquote EmptyString)) name
                 ++ String dquote EmptyString).

(** ** Package database: discovery *)

Record DiscoveredDatabase := {
  Path : string;
  Alias : string;
  Description : string;
  Size : Z;
  ModTime : Z;
  Source : config.DatabaseSource;
}.

(** [discoverSource] reads the file system (glob expansion, [os.Stat],
    [filepath.WalkDir]); its outcome for a source is a parameter of a scan:
    the databases found, in order, and the directories to watch, or [None]
    for an error. *)
Definition SourceDiscovery : Type :=
  config.DatabaseSource -> option (list DiscoveredDatabase * list string).

(** The alias [createDiscoveredDBFromPath] gives the file at [absPath]: the
    source's alias, with a wildcard replaced by the file name without its
    extension, or that name when the source has no alias. *)
Definition generateAlias {L : GoLib} (source : config.DatabaseSource) (absPath : string) : string :=
  let name := trimSuffix (filepath_Base absPath) (filepath_Ext absPath) in
  let alias := config.Alias source in
  if String.eqb alias "" then name
  else if containsByte star alias then replaceByte star name alias
  else alias.

(** What [createDiscoveredDBFromPath] builds for a source, apart from the
    size and time it reads from the file system. *)
Definition createdFrom {L : GoLib} (source : config.DatabaseSource) (db : DiscoveredDatabase) : Prop :=
  Alias db = generateAlias source (Path db)
  /\ Description db = config.Description source
  /\ Source db = source.

Record Discovery := {
  sources : list config.DatabaseSource;
  databases : gmap string DiscoveredDatabase;
  (** the paths handed to [watcher.Add] so far *)
  watched : gset string;
}.

Definition NewDiscovery (sources : list config.DatabaseSource) : Discovery :=
  {| sources := sources; databases := ∅; watched := ∅ |}.

Section Ranging.
Context {R : MapRange}.

Definition GetDatabases (d : Discovery) : list DiscoveredDatabase :=
  (rangeMap (databases d)).*2.

Definition GetDatabase (d : Discovery) (pathOrAlias : string) : option DiscoveredDatabase :=
  match databases d !! pathOrAlias with
  | Some db => Some db
  | None =>
      List.find (fun db => String.eqb (Alias db) pathOrAlias) (rangeMap (databases d)).*2
  end.

(** The first loop of [scan]: [newDatabases] and [watchPaths] after all
    sources; a source whose discovery fails is skipped. *)
Definition scanSources (discoverSource : SourceDiscovery)
    (sources : list config.DatabaseSource)
    : gmap string DiscoveredDatabase * gset string :=
  foldl (fun acc source =>
           match discoverSource source with
           | None => acc
           | Some (found, watchDirs) =>
               (foldl (fun newDatabases db => <[Path db := db]> newDatabases) acc.1 found,
                foldl (fun watchPaths dir => {[dir]} ∪ watchPaths) acc.2 watchDirs)
           end)
        (∅, ∅) sources.

(** The databases of [m] whose key is not a key of [other], in the order
    [range m] visits them. *)
Definition notIn (m other : gmap string DiscoveredDatabase) : list DiscoveredDatabase :=
  omap (fun kv => match other !! kv.1 with
                  | None => Some kv.2
                  | Some _ => None
                  end)
       (rangeMap m).

(** [scan]: the new state and, when [added] or [removed] is not empty, the
    pair handed to [notifyCallbacks]. *)
Definition scan (discoverSource : SourceDiscovery) (d : Discovery)
    : Discovery * option (list DiscoveredDatabase * list DiscoveredDatabase) :=
  let newDatabases := (scanSources discoverSource (sources d)).1 in
  let watchPaths := (scanSources discoverSource (sources d)).2 in
  let added := notIn newDatabases (databases d) in
  let removed := notIn (databases d) newDatabases in
  ({| sources := sources d; databases := newDatabases; watched := watched d ∪ watchPaths |},
   if (0 <? Z.of_nat (length added)) || (0 <? Z.of_nat (length removed))
   then Some (added, removed) else None).

End Ranging.

(** ** Package database: connections and the engine *)

(** A value bound to a parameter or read from a row ([any]). *)
Inductive Value :=
| VNull
| VInt (n : Z)
| VFloat (repr : string)
| VText (s : string)
| VBytes (b : string)
| VBool (b : bool).

Record OpenOptions := { OpenOptions_ReadOnly : bool; BusyTimeout : Z }.

Definition DefaultOpenOptions : OpenOptions :=
  {| OpenOptions_ReadOnly := false; BusyTimeout := 5000 |}.

(** The handle [*sql.DB] is the engine's; a connection is identified here by
    its path and mode. *)
Record Connection := { Connection_Path : string; Connection_ReadOnly : bool }.

(** Every contact with the engine, the log and the history store. *)
Inductive Event :=
| EvOpen (path mode : string) (busyTimeout : Z)
| EvClose (conn : Connection)
| EvQuery (conn : Connection) (query : string) (args : list Value)
| EvExec (conn : Connection) (query : string) (args : list Value)
| EvLog (line : string)
| EvAudit (sessionID action dbPath tableName : string) (details : list (string * string))
| EvListQueryHistory (limit : Z)
| EvListAuditLog (limit : Z).

Inductive OpenOutcome :=
| OpenOk
| OpenFails (msg : string)
| PingFails (msg : string).

Inductive QueryOutcome :=
| QueryFails (msg : string)
| ColumnsFail (msg : string)
| ScanFails (msg : string)
| Rows (columns : list string) (rows : list (list Value)) (rowsErr : option string).

Inductive ExecOutcome :=
| ExecFails (msg : string)
| ExecOk (rowsAffected lastInsertID : Z).

(** The engine's answers, given everything that happened before. *)
Class Engine := {
  engine_open : list Event -> string -> string -> Z -> OpenOutcome;
  engine_query : list Event -> Connection -> string -> list Value -> QueryOutcome;
  engine_exec : list Event -> Connection -> string -> list Value -> ExecOutcome;
}.

Section Engine.
Context {L : GoLib} {R : MapRange} {E : Engine}.

(** [Open]: the result is the connection or the error's text. *)
Definition Open (trace : list Event) (path : string) (opts : OpenOptions)
    : (Connection + string) * list Event :=
  let mode := if OpenOptions_ReadOnly opts then "ro" else "rwc" in
  let trace' := (trace ++ [EvOpen path mode (BusyTimeout opts)])%list in
  match engine_open trace path mode (BusyTimeout opts) with
  | OpenFails msg => (inr ("failed to open database: " ++ msg), trace')
  | PingFails msg => (inr ("failed to connect to database: " ++ msg), trace')
  | OpenOk =>
      (inl {| Connection_Path := path; Connection_ReadOnly := OpenOptions_ReadOnly opts |},
       trace')
  end.


Record QueryResult := {
  Columns : list string;
  Rows_ : list (list Value);
  RowsAffected : Z;
  LastInsertID : Z;
  IsSelect : bool;
  Error : string;
}.

(** [[]byte] values become strings. *)
Definition readable (v : Value) : Value :=
  match v with
  | VBytes b => VText b
  | _ => v
  end.

(** The result is Go's pair of a [QueryResult] pointer and an error. *)
Definition executeSelect (trace : list Event) (conn : Connection) (query : string)
    (args : list Value) : (option QueryResult * option string) * list Event :=
  let trace' := (trace ++ [EvQuery conn query args])%list in
  match engine_query trace conn query args with
  | QueryFails msg =>
      ((Some {| Columns := []; Rows_ := []; RowsAffected := 0; LastInsertID := 0;
                IsSelect := true; Error := msg |}, Some msg), trace')
  | ColumnsFail msg => ((None, Some ("failed to get columns: " ++ msg)), trace')
  | ScanFails msg => ((None, Some ("failed to scan row: " ++ msg)), trace')
  | Rows columns rows rowsErr =>
      let result err :=
        {| Columns := columns; Rows_ := List.map (List.map readable) rows;
           RowsAffected := 0; LastInsertID := 0; IsSelect := true; Error := err |} in
      match rowsErr with
      | Some msg => ((Some (result msg), Some msg), trace')
      | None => ((Some (result ""), None), trace')
      end
  end.

Definition executeExec (trace : list Event) (conn : Connection) (query : string)
    (args : list Value) : (option QueryResult * option string) * list Event :=
  let trace' := (trace ++ [EvExec conn query args])%list in
  match engine_exec trace conn query args with
  | ExecFails msg =>
      ((Some {| Columns := []; Rows_ := []; RowsAffected := 0; LastInsertID := 0;
                IsSelect := false; Error := msg |}, Some msg), trace')
  | ExecOk rowsAffected lastInsertID =>
      ((Some {| Columns := []; Rows_ := []; RowsAffected := rowsAffected;
                LastInsertID := lastInsertID; IsSelect := false; Error := "" |}, None),
       trace')
  end.

(** [Query] of query.go; [strings.HasPrefix] is [String.prefix]. *)
Definition Query (trace : list Event) (conn : Connection) (query : string)
    (args : list Value) : (option QueryResult * option string) * list Event :=
  let trimmed := TrimSpace (ToUpper query) in
  let isSelect :=
    String.prefix "SELECT" trimmed || String.prefix "PRAGMA" trimmed
    || String.prefix "EXPLAIN" trimmed || String.prefix "WITH" trimmed in
  if isSelect then executeSelect trace conn query args
  else executeExec trace conn query args.

(** [Delete] of query.go. *)
Definition Delete (trace : list Event) (conn : Connection) (tableName where_ : string)
    (whereArgs : list Value) : (option QueryResult * option string) * list Event :=
  let query := "DELETE FROM " ++ quoteIdentifier tableName in
  let query := if negb (String.eqb where_ "") then query ++ " WHERE " ++ where_ else query in
  Query trace conn query whereArgs.

(** [Insert] of query.go: one loop over the map builds the columns, the
    placeholders and the values. *)
Definition Insert (trace : list Event) (conn : Connection) (tableName : string)
    (data : gmap string Value) : (option QueryResult * option string) * list Event :=
  if (Z.of_nat (size data) =? 0)%Z then ((None, Some "no data to insert"), trace)
  else
    let entries := rangeMap data in
    let columns := quoteIdentifier <$> entries.*1 in
    let placeholders := (fun _ => "?") <$> entries in
    let values := entries.*2 in
    Query trace conn
      ("INSERT INTO " ++ quoteIdentifier tableName ++ " (" ++ String.concat ", " columns
       ++ ") VALUES (" ++ String.concat ", " placeholders ++ ")")
      values.

(** [Update] of query.go. *)
Definition Update (trace : list Event) (conn : Connection) (tableName : string)
    (data : gmap string Value) (where_ : string) (whereArgs : list Value)
    : (option QueryResult * option string) * list Event :=
  if (Z.of_nat (size data) =? 0)%Z then ((None, Some "no data to update"), trace)
  else
    let entries := rangeMap data in
    let setParts := (fun col => quoteIdentifier col ++ " = ?") <$> entries.*1 in
    let values := (entries.*2 ++ whereArgs)%list in
    let query := "UPDATE " ++ quoteIdentifier tableName ++ " SET " ++ String.concat ", " setParts in
    let query := if negb (String.eqb where_ "") then query ++ " WHERE " ++ where_ else query in
    Query trace conn query values.

(** [UpdateCell] of query.go. *)
Definition UpdateCell (trace : list Event) (conn : Connection) (tableName pkColumn : string)
    (pkValue : Value) (column : string) (newValue : Value)
    : (option QueryResult * option string) * list Event :=
  Update trace conn tableName {[ column := newValue ]}
         (quoteIdentifier pkColumn ++ " = ?") [pkValue].

(** ** Package database: the manager *)

Inductive error :=
| NotFoundError (pathOrAlias : string)
| AccessDeniedError (pathOrAlias : string)
| WriteDeniedError
| OpenError (cause : string)
| LockHeldError (e : LockError)
| EngineError (msg : string).

(** The text of each error, as [fmt.Errorf] builds it; the time of a
    [LockError] is left unformatted. *)
Definition error_text (e : error) : string :=
  match e with
  | NotFoundError pathOrAlias => "database not found: " ++ pathOrAlias
  | AccessDeniedError pathOrAlias => "access denied to database: " ++ pathOrAlias
  | WriteDeniedError => "access denied: write permission required"
  | OpenError cause => "failed to open database: " ++ cause
  | LockHeldError e =>
      "database " ++ LockError_Database e ++ " is locked by " ++ LockError_HeldBy e
  | EngineError msg => msg
  end.

Record Manager := {
  discovery : Discovery;
  connections : gmap string Connection;
  lockManager : LockManager;
  resolver : Resolver;
}.

Record DatabaseInfo := {
  DatabaseInfo_Path : string;
  DatabaseInfo_Alias : string;
  DatabaseInfo_Description : string;
  DatabaseInfo_Size : Z;
  DatabaseInfo_ModTime : Z;
  AccessLevel : Level;
}.

Definition UpdateResolver (m : Manager) (r : Resolver) : Manager :=
  {| discovery := discovery m; connections := connections m;
     lockManager := lockManager m; resolver := r |}.

(** [ListDatabases]: the loop over [GetDatabases()]. *)
Definition ListDatabases (m : Manager) (user : option UserInfo) : list DatabaseInfo :=
  omap (fun db =>
          let level := Resolve (resolver m) user (Path db) (Alias db) in
          if CanRead level then
            Some {| DatabaseInfo_Path := Path db; DatabaseInfo_Alias := Alias db;
                    DatabaseInfo_Description := Description db;
                    DatabaseInfo_Size := Size db; DatabaseInfo_ModTime := ModTime db;
                    AccessLevel := level |}
          else None)
       (GetDatabases (discovery m)).

Definition GetAccessLevel (m : Manager) (user : option UserInfo) (pathOrAlias : string)
    : Level :=
  match GetDatabase (discovery m) pathOrAlias with
  | None => LevelNone
  | Some db => Resolve (resolver m) user (Path db) (Alias db)
  end.

Definition OpenConnection (m : Manager) (trace : list Event) (pathOrAlias : string)
    (user : option UserInfo) : (Connection + error) * Manager * list Event :=
  match GetDatabase (discovery m) pathOrAlias with
  | None => (inr (NotFoundError pathOrAlias), m, trace)
  | Some db =>
      let level := GetAccessLevel m user pathOrAlias in
      if negb (CanRead level) then (inr (AccessDeniedError pathOrAlias), m, trace)
      else
        match connections m !! Path db with
        | Some conn => (inl conn, m, trace)
        | None =>
            let opts := {| OpenOptions_ReadOnly := negb (CanWrite level);
                           BusyTimeout := BusyTimeout DefaultOpenOptions |} in
            match Open trace (Path db) opts with
            | (inr msg, trace') => (inr (OpenError msg), m, trace')
            | (inl conn, trace') =>
                (inl conn,
                 {| discovery := discovery m;
                    connections := <[Path db := conn]> (connections m);
                    lockManager := lockManager m; resolver := resolver m |},
                 trace')
            end
        end
  end.


(** The bytes [' '], ['\t'], ['\n'] and ['\r'] that [trimToUpper] skips. *)
Definition isBlank (c : ascii) : bool :=
  let n := nat_of_ascii c in
  ((n =? 32) || (n =? 9) || (n =? 10) || (n =? 13))%nat.

(** The value of [start] after the first loop of [trimToUpper]. *)
Fixpoint skipBlanks (s : string) : Z :=
  match s with
  | EmptyString => 0
  | String c s' => if isBlank c then 1 + skipBlanks s' else 0
  end.

Definition trimToUpper (s : string) : string :=
  let start := skipBlanks s in
  let end_ := start + 20 in
  let end_ := if len s <? end_ then len s else end_ in
  mapBytes upperByte (slice s start end_).

Definition hasPrefix (s prefix : string) : bool :=
  (len prefix <=? len s) && String.eqb (slice s 0 (len prefix)) prefix.

Definition isReadOnlyQuery (query : string) : bool :=
  let upper := trimToUpper query in
  hasPrefix upper "SELECT" || hasPrefix upper "PRAGMA"
  || hasPrefix upper "EXPLAIN" || hasPrefix upper "WITH".

Definition withLockManager (m : Manager) (lm : LockManager) : Manager :=
  {| discovery := discovery m; connections := connections m;
     lockManager := lm; resolver := resolver m |}.

(** [LogWALError] *)
Definition LogWALError (trace : list Event) (dbPath err : string) : list Event :=
  (trace ++ [EvLog ("ERROR: WAL lock encountered on " ++ dbPath ++ ": " ++ err)])%list.

(** [ExecuteQuery]; [now] is the clock reading [TryLock] takes.  The result
    is Go's pair of a [QueryResult] pointer and an error. *)
Definition ExecuteQuery (m : Manager) (trace : list Event) (pathOrAlias : string)
    (user : option UserInfo) (sessionID query : string) (now : Z)
    : (option QueryResult * option error) * Manager * list Event :=
  match GetDatabase (discovery m) pathOrAlias with
  | None => ((None, Some (NotFoundError pathOrAlias)), m, trace)
  | Some db =>
      let level := GetAccessLevel m user pathOrAlias in
      (* Check if query requires write access *)
      if negb (isReadOnlyQuery query) && negb (CanWrite level)
      then ((None, Some WriteDeniedError), m, trace)
      else
        match OpenConnection m trace pathOrAlias user with
        | (inr err, m1, trace1) => ((None, Some err), m1, trace1)
        | (inl conn, m1, trace1) =>
            (* the call of Query and what follows it; [held] says whether
               the deferred Unlock is pending *)
            let run (held : bool) (m2 : Manager) :=
              let '((result, err), trace2) := Query trace1 conn query [] in
              let m3 :=
                if held
                then withLockManager m2 (Unlock (lockManager m2) (Path db) sessionID)
                else m2 in
              match err with
              | Some msg =>
                  ((None, Some (EngineError msg)), m3,
                   if IsWALLockError (Some msg) then LogWALError trace2 (Path db) msg
                   else trace2)
              | None => ((result, None), m3, trace2)
              end in
            (* For write queries, acquire lock *)
            if negb (isReadOnlyQuery query) then
              match TryLock (lockManager m1) (Path db) (DisplayName user) sessionID now with
              | (Some lockErr, lm) =>
                  ((None, Some (LockHeldError lockErr)), withLockManager m1 lm, trace1)
              | (None, lm) => run true (withLockManager m1 lm)
              end
            else run false m1
        end
  end.

End Engine.

End database.

(** ** Package server (the part the CLI reads) *)

Module server.

Record Session := {
  ID : string;
  User : option access.UserInfo;
  RemoteAddr : string;
  StartTime : Z;
  LastActivity : Z;
}.

Record SessionManager := { sessions : gmap string Session }.

Definition ListActiveSessions {R : MapRange} (sm : SessionManager) : list Session :=
  (rangeMap (sessions sm)).*2.

(** What the CLI reads from an [ssh.Session]: the session manager stored in
    its context, if any ([GetSessionMgrFromSSH]). *)
Record SSHSession := { sessionMgr : option SessionManager }.

End server.

(** ** Package history (the records the CLI prints) *)

Module history.

Record QueryRecord := {
  QueryRecord_DatabasePath : string;
  Query : string;
  ExecutionTimeMs : Z;
  QueryRecord_CreatedAt : Z;
}.

Record AuditRecord := {
  Action : string;
  AuditRecord_DatabasePath : string;
  TableName : string;
  Details : string;
  AuditRecord_CreatedAt : Z;
}.

(** The history store's answers to the two listing calls, given everything
    that happened before; the error's text on failure. *)
Class Store := {
  ListQueryHistory : list database.Event -> Z -> list QueryRecord + string;
  ListAuditLog : list database.Event -> Z -> list AuditRecord + string;
}.

End history.

(** ** Package cli *)

Module cli.
Import access.

(** What a command writes to a stream, up to the formatting of records. *)
Inductive Output :=
| Line (text : string)
| Header (columns : list string)
| RowsAffectedJSON (rowsAffected : Z)
| SessionsJSON (sessions : list server.Session)
| SessionRow (s : server.Session)
| QueriesJSON (queries : list history.QueryRecord)
| QueryRow (q : history.QueryRecord)
| AuditJSON (entries : list history.AuditRecord)
| AuditRow (e : history.AuditRecord).

(** [historyStore] is [true] when the handler's store pointer is not nil. *)
Record Handler := { historyStore : bool; version : string }.

(** The manager a context points to is shared with the handler; its state
    is passed next to the context. *)
Record CommandContext := {
  Session : option server.SSHSession;
  User : option UserInfo;
  SessionInfo : option server.Session;
  Args : list string;
  Out : list Output;
  Err : list Output;
  exitCode : Z;
}.

Definition Exit (c : CommandContext) (code : Z) : CommandContext :=
  {| Session := Session c; User := User c; SessionInfo := SessionInfo c; Args := Args c;
     Out := Out c; Err := Err c; exitCode := code |}.

Definition toOut (c : CommandContext) (o : Output) : CommandContext :=
  {| Session := Session c; User := User c; SessionInfo := SessionInfo c; Args := Args c;
     Out := Out c ++ [o]; Err := Err c; exitCode := exitCode c |}.

Definition toErr (c : CommandContext) (o : Output) : CommandContext :=
  {| Session := Session c; User := User c; SessionInfo := SessionInfo c; Args := Args c;
     Out := Out c; Err := Err c ++ [o]; exitCode := exitCode c |}.

(** A message on the error stream followed by [Exit(1)]. *)
Definition fail (c : CommandContext) (text : string) : CommandContext :=
  Exit (toErr c (Line text)) 1.

Definition GetSessionID (c : CommandContext) : string :=
  match SessionInfo c with
  | Some s => server.ID s
  | None => ""
  end.

(** [strings.TrimPrefix(arg, prefix)] when [arg] has the prefix. *)
Definition dropPrefix (prefix arg : string) : string :=
  String.substring (String.length prefix) (String.length arg - String.length prefix) arg.

Fixpoint flagValue (prefix shortPrefix : string) (args : list string) : string :=
  match args with
  | [] => ""
  | arg :: rest =>
      if String.prefix prefix arg then dropPrefix prefix arg
      else if String.prefix shortPrefix arg then dropPrefix shortPrefix arg
      else flagValue prefix shortPrefix rest
  end.

Definition GetFlag (c : CommandContext) (name : string) : string :=
  flagValue ("--" ++ name ++ "=") ("-" ++ name ++ "=") (Args c).

Definition HasFlag (c : CommandContext) (name : string) : bool :=
  existsb (fun arg => String.eqb arg ("--" ++ name) || String.eqb arg ("-" ++ name)) (Args c).

Definition GetPositionalArgs (c : CommandContext) : list string :=
  List.filter (fun arg => negb (String.prefix "-" arg)) (Args c).

Definition RequireAdmin (c : CommandContext) : CommandContext * bool :=
  match User c with
  | Some u =>
      if IsAdmin u then (c, true)
      else (fail c "Access denied: admin access required", false)
  | None => (fail c "Access denied: admin access required", false)
  end.

Section Commands.
Context {L : GoLib} {R : MapRange} {E : database.Engine} {HS : history.Store}.

Definition RequireRead (c : CommandContext) (m : database.Manager) (dbPath : string)
    : CommandContext * bool :=
  if negb (CanRead (database.GetAccessLevel m (User c) dbPath))
  then (fail c ("Access denied: no read access to " ++ dbPath), false)
  else (c, true).

Definition RequireWrite (c : CommandContext) (m : database.Manager) (dbPath : string)
    : CommandContext * bool :=
  if negb (CanWrite (database.GetAccessLevel m (User c) dbPath))
  then (fail c ("Access denied: no write access to " ++ dbPath), false)
  else (c, true).

(** [RecordAuditSimple] on a store that is not nil. *)
Definition audit (h : Handler) (trace : list database.Event)
    (sessionID action dbPath tableName : string) (details : list (string * string))
    : list database.Event :=
  if historyStore h
  then (trace ++ [database.EvAudit sessionID action dbPath tableName details])%list
  else trace.

Definition cmdDelete (h : Handler) (ctx : CommandContext) (m : database.Manager)
    (trace : list database.Event)
    : CommandContext * database.Manager * list database.Event :=
  match GetPositionalArgs ctx with
  | dbName :: tableName :: _ =>
      match RequireWrite ctx m dbName with
      | (ctx, false) => (ctx, m, trace)
      | (ctx, true) =>
          if negb (HasFlag ctx "confirm") && negb (HasFlag ctx "force") then
            (fail ctx "Error: --confirm is required to prevent accidental deletes", m, trace)
          else
            let where_ := GetFlag ctx "where" in
            if String.eqb where_ "" then
              (fail ctx "Error: --where is required to prevent accidental full-table deletes",
               m, trace)
            else
              match database.OpenConnection m trace dbName (User ctx) with
              | (inr err, m, trace) =>
                  (fail ctx ("Failed to open database: " ++ database.error_text err), m, trace)
              | (inl conn, m, trace) =>
                  match database.Delete trace conn tableName where_ [] with
                  | ((_, Some err), trace) => (fail ctx ("Delete error: " ++ err), m, trace)
                  | ((None, None), trace) =>
                      (* no call site of Query yields a nil result without an error *)
                      (ctx, m, trace)
                  | ((Some result, None), trace) =>
                      let ctx :=
                        if String.eqb (GetFlag ctx "format") "json"
                        then toOut ctx (RowsAffectedJSON (database.RowsAffected result))
                        else toOut ctx (Line ("Deleted " ++ pretty (database.RowsAffected result)
                                              ++ " row(s)")) in
                      (ctx, m,
                       audit h trace (GetSessionID ctx) "DELETE" dbName tableName
                             [("where", where_)])
                  end
              end
      end
  | _ =>
      (fail ctx "Usage: delete <database> <table> --where=... --confirm", m, trace)
  end.

(** The [--limit] flag of [history] and [audit]. *)
Definition limitFlag (ctx : CommandContext) : Z :=
  let l := GetFlag ctx "limit" in
  if negb (String.eqb l "") then
    match Atoi l with
    | Some n => n
    | None => 50
    end
  else 50.

Definition cmdSessions (h : Handler) (ctx : CommandContext) : CommandContext :=
  match RequireAdmin ctx with
  | (ctx, false) => ctx
  | (ctx, true) =>
      match Session ctx with
      | None => fail ctx "sessions command is only available in SSH server mode"
      | Some s =>
          match server.sessionMgr s with
          | None => fail ctx "Session manager not available"
          | Some sessionMgr =>
              let sessions := server.ListActiveSessions sessionMgr in
              if String.eqb (GetFlag ctx "format") "json" then toOut ctx (SessionsJSON sessions)
              else if (Z.of_nat (length sessions) =? 0)%Z then toOut ctx (Line "No active sessions")
              else
                foldl (fun ctx s => toOut ctx (SessionRow s))
                      (toOut ctx (Header ["ID"; "USER"; "REMOTE"; "DURATION"; "IDLE"]))
                      sessions
          end
      end
  end.

Definition cmdHistory (h : Handler) (ctx : CommandContext) (trace : list database.Event)
    : CommandContext * list database.Event :=
  match RequireAdmin ctx with
  | (ctx, false) => (ctx, trace)
  | (ctx, true) =>
      if negb (historyStore h) then (fail ctx "History not available in local mode", trace)
      else
        let limit := limitFlag ctx in
        let trace' := (trace ++ [database.EvListQueryHistory limit])%list in
        match history.ListQueryHistory trace limit with
        | inr err => (fail ctx ("Error fetching history: " ++ err), trace')
        | inl queries =>
            if String.eqb (GetFlag ctx "format") "json" then (toOut ctx (QueriesJSON queries), trace')
            else if (Z.of_nat (length queries) =? 0)%Z then (toOut ctx (Line "No query history"), trace')
            else
              (foldl (fun ctx q => toOut ctx (QueryRow q))
                     (toOut ctx (Header ["TIME"; "DATABASE"; "DURATION"; "QUERY"]))
                     queries,
               trace')
        end
  end.

Definition cmdAudit (h : Handler) (ctx : CommandContext) (trace : list database.Event)
    : CommandContext * list database.Event :=
  match RequireAdmin ctx with
  | (ctx, false) => (ctx, trace)
  | (ctx, true) =>
      if negb (historyStore h) then (fail ctx "Audit log not available in local mode", trace)
      else
        let limit := limitFlag ctx in
        let trace' := (trace ++ [database.EvListAuditLog limit])%list in
        match history.ListAuditLog trace limit with
        | inr err => (fail ctx ("Error fetching audit log: " ++ err), trace')
        | inl entries =>
            if String.eqb (GetFlag ctx "format") "json" then (toOut ctx (AuditJSON entries), trace')
            else if (Z.of_nat (length entries) =? 0)%Z then (toOut ctx (Line "No audit log entries"), trace')
            else
              (foldl (fun ctx e => toOut ctx (AuditRow e))
                     (toOut ctx (Header ["TIME"; "ACTION"; "DATABASE"; "TABLE"; "DETAILS"]))
                     entries,
               trace')
        end
  end.

Definition cmdReloadConfig (h : Handler) (ctx : CommandContext) : CommandContext :=
  match RequireAdmin ctx with
  | (ctx, false) => ctx
  | (ctx, true) =>
      match Session ctx with
      | None => fail ctx "reload-config is only available in SSH server mode"
      | Some _ =>
          toOut (toOut ctx (Line "Configuration reload triggered"))
                (Line "Note: Config watcher handles automatic reloading")
      end
  end.

(** The four cases of [routeCommand] under the comment "Admin commands". *)
Inductive AdminCommand := sessions | history_ | audit_ | reload_config.

Definition commandName (cmd : AdminCommand) : string :=
  match cmd with
  | sessions => "sessions"
  | history_ => "history"
  | audit_ => "audit"
  | reload_config => "reload-config"
  end.

Definition routeAdminCommand (h : Handler) (cmd : AdminCommand) (ctx : CommandContext)
    (trace : list database.Event) : CommandContext * list database.Event :=
  match cmd with
  | sessions => (cmdSessions h ctx, trace)
  | history_ => cmdHistory h ctx trace
  | audit_ => cmdAudit h ctx trace
  | reload_config => (cmdReloadConfig h ctx, trace)
  end.

(** *** The other data commands *)

Context {J : GoJSON database.Value}.

(** A text between double quotes, for the usage messages. *)
Definition quoted (text : string) : string :=
  String dquote text ++ String dquote EmptyString.

Definition cmdInsert (h : Handler) (ctx : CommandContext) (m : database.Manager)
    (trace : list database.Event)
    : CommandContext * database.Manager * list database.Event :=
  match GetPositionalArgs ctx with
  | dbName :: tableName :: _ =>
      match RequireWrite ctx m dbName with
      | (ctx, false) => (ctx, m, trace)
      | (ctx, true) =>
          let jsonData := GetFlag ctx "json" in
          if String.eqb jsonData "" then (fail ctx "Error: --json flag is required", m, trace)
          else
            match json_Unmarshal jsonData with
            | inr err => (fail ctx ("Error parsing JSON: " ++ err), m, trace)
            | inl data =>
                match database.OpenConnection m trace dbName (User ctx) with
                | (inr err, m, trace) =>
                    (fail ctx ("Failed to open database: " ++ database.error_text err), m, trace)
                | (inl conn, m, trace) =>
                    match database.Insert trace conn tableName data with
                    | ((_, Some err), trace) => (fail ctx ("Insert error: " ++ err), m, trace)
                    | ((None, None), trace) => (ctx, m, trace)
                    | ((Some result, None), trace) =>
                        let ctx :=
                          if String.eqb (GetFlag ctx "format") "json"
                          then toOut ctx (Line (json_Encode
                                 [("last_insert_id", database.VInt (database.LastInsertID result));
                                  ("rows_affected", database.VInt (database.RowsAffected result))]))
                          else toOut ctx (Line ("Inserted row with ID: "
                                                ++ pretty (database.LastInsertID result))) in
                        (ctx, m,
                         audit h trace (GetSessionID ctx) "INSERT" dbName tableName
                               [("data", jsonData)])
                    end
                end
            end
      end
  | _ =>
      (fail ctx ("Usage: insert <database> <table> --json='{" ++ quoted "col" ++ ":"
                 ++ quoted "val" ++ "}'"), m, trace)
  end.

Definition cmdUpdate (h : Handler) (ctx : CommandContext) (m : database.Manager)
    (trace : list database.Event)
    : CommandContext * database.Manager * list database.Event :=
  match GetPositionalArgs ctx with
  | dbName :: tableName :: _ =>
      match RequireWrite ctx m dbName with
      | (ctx, false) => (ctx, m, trace)
      | (ctx, true) =>
          let where_ := GetFlag ctx "where" in
          if String.eqb where_ "" then
            (fail ctx "Error: --where is required to prevent accidental full-table updates",
             m, trace)
          else
            let setData := GetFlag ctx "set" in
            if String.eqb setData "" then (fail ctx "Error: --set flag is required", m, trace)
            else
              match json_Unmarshal setData with
              | inr err => (fail ctx ("Error parsing JSON: " ++ err), m, trace)
              | inl data =>
                  match database.OpenConnection m trace dbName (User ctx) with
                  | (inr err, m, trace) =>
                      (fail ctx ("Failed to open database: " ++ database.error_text err),
                       m, trace)
                  | (inl conn, m, trace) =>
                      match database.Update trace conn tableName data where_ [] with
                      | ((_, Some err), trace) => (fail ctx ("Update error: " ++ err), m, trace)
                      | ((None, None), trace) => (ctx, m, trace)
                      | ((Some result, None), trace) =>
                          let ctx :=
                            if String.eqb (GetFlag ctx "format") "json"
                            then toOut ctx (RowsAffectedJSON (database.RowsAffected result))
                            else toOut ctx (Line ("Updated "
                                                  ++ pretty (database.RowsAffected result)
                                                  ++ " row(s)")) in
                          (ctx, m,
                           audit h trace (GetSessionID ctx) "UPDATE" dbName tableName
                                 [("where", where_); ("set", setData)])
                      end
                  end
              end
      end
  | _ =>
      (fail ctx ("Usage: update <database> <table> --where=" ++ quoted "..."
                 ++ " --set='{" ++ quoted "col" ++ ":" ++ quoted "val" ++ "}'"), m, trace)
  end.

(** [cmdDropTable]; [now] is the clock reading the manager's lock takes. *)
Definition cmdDropTable (h : Handler) (ctx : CommandContext) (m : database.Manager)
    (trace : list database.Event) (now : Z)
    : CommandContext * database.Manager * list database.Event :=
  match GetPositionalArgs ctx with
  | dbName :: tableName :: _ =>
      match RequireWrite ctx m dbName with
      | (ctx, false) => (ctx, m, trace)
      | (ctx, true) =>
          if negb (HasFlag ctx "confirm") then
            (Exit (toErr (toErr ctx (Line "Error: --confirm is required to drop a table"))
                         (Line "This will permanently delete the table and all its data.")) 1,
             m, trace)
          else
            let sql := "DROP TABLE " ++ database.quoteIdentifier tableName in
            match database.ExecuteQuery m trace dbName (User ctx) (GetSessionID ctx) sql now with
            | ((_, Some err), m, trace) =>
                (fail ctx ("Error dropping table: " ++ database.error_text err), m, trace)
            | ((_, None), m, trace) =>
                let ctx :=
                  if String.eqb (GetFlag ctx "format") "json"
                  then toOut ctx (Line (json_Encode [("dropped", database.VText tableName)]))
                  else toOut ctx (Line ("Table '" ++ tableName ++ "' dropped")) in
                (ctx, m, audit h trace (GetSessionID ctx) "DROP_TABLE" dbName tableName [])
            end
      end
  | _ => (fail ctx "Usage: drop-table <database> <table> --confirm", m, trace)
  end.

(** *** The classifier of the query command *)

(** [trim] of the cli package: spaces and tabs off both ends.  [start] runs
    up from 0, then [end] runs down from [len(s)], neither past the other. *)
Definition isSpaceOrTab (c : ascii) : bool :=
  let n := nat_of_ascii c in ((n =? 32) || (n =? 9))%nat.

(** The value of [start] after the first loop. *)
Fixpoint trimStart (s : string) : Z :=
  match s with
  | EmptyString => 0
  | String c s' => if isSpaceOrTab c then 1 + trimStart s' else 0
  end.

(** What the second loop leaves of [s[start:]]. *)
Fixpoint dropTrailing (s : string) : string :=
  match s with
  | EmptyString => EmptyString
  | String c s' =>
      match dropTrailing s' with
      | EmptyString => if isSpaceOrTab c then EmptyString else String c EmptyString
      | rest => String c rest
      end
  end.

Definition trim (s : string) : string :=
  dropTrailing (slice s (trimStart s) (len s)).

Definition toUpper (s : string) : string := mapBytes upperByte s.

Definition hasPrefix (s prefix : string) : bool :=
  (len prefix <=? len s)%Z && String.eqb (slice s 0 (len prefix)) prefix.

Definition isReadOnlyQuery (query : string) : bool :=
  let upper := toUpper (trim query) in
  hasPrefix upper "SELECT" || hasPrefix upper "PRAGMA"
  || hasPrefix upper "EXPLAIN" || hasPrefix upper "WITH".

End Commands.

(** *** Column lists *)

(** One round of the loop of [split]: at a match the part [s[start:i]] is
    appended and [start] moves behind the separator.  The slice panics when
    [start > i], which is [None]. *)
Definition splitStep (s sep : string) (st : option (Z * list string)) (i : Z)
    : option (Z * list string) :=
  match st with
  | None => None
  | Some (start, result) =>
      if String.eqb (slice s i (i + len sep)) sep then
        if (start <=? i)%Z then Some (i + len sep, (result ++ [slice s start i])%list)
        else None
      else Some (start, result)
  end.

(** [split]: [i] runs from 0 to [len(s)-len(sep)]; the rest [s[start:]] is
    the last part. *)
Definition split (s sep : string) : option (list string) :=
  match foldl (splitStep s sep) (Some (0, [])) (seqZ 0 (len s - len sep + 1)) with
  | None => None
  | Some (start, result) => Some (result ++ [slice s start (len s)])%list
  end.

(** [splitTrim]: every part trimmed, the empty ones left out. *)
Definition splitTrim (s sep : string) : option (list string) :=
  match split s sep with
  | None => None
  | Some parts => Some (List.filter (fun p => negb (String.eqb p "")) (trim <$> parts))
  end.

(** [parseColumns]: nothing for the empty string, else the non-empty parts
    between commas. *)
Definition parseColumns (s : string) : option (list string) :=
  if String.eqb s "" then Some []
  else
    match splitTrim s "," with
    | None => None
    | Some parts => Some (List.filter (fun c => negb (String.eqb c "")) parts)
    end.

End cli.

(** ** Instances for closed examples *)

(** An instance of the library interface for examples on plain ASCII text:
    [TrimSpace] trims the ASCII white space bytes, [ToUpper] upper-cases the
    ASCII letters, a pattern is matched by equality (patterns without
    metacharacters), [Base] is the part after the last slash, [Ext] the
    part from the last dot of that, and [Atoi] reads unsigned decimal
    digits. *)
Module Examples.

Definition isSpaceASCII (c : ascii) : bool :=
  let n := nat_of_ascii c in ((9 <=? n) && (n <=? 13) || (n =? 32))%nat.

Fixpoint trimLeft (s : string) : string :=
  match s with
  | EmptyString => EmptyString
  | String c s' => if isSpaceASCII c then trimLeft s' else s
  end.

Definition reverse (s : string) : string :=
  string_of_list_ascii (List.rev (list_ascii_of_string s)).

Definition trimBoth (s : string) : string := reverse (trimLeft (reverse (trimLeft s))).

Fixpoint afterLastSlash (s acc : string) : string :=
  match s with
  | EmptyString => acc
  | String c s' => if Ascii.eqb c (ascii_of_nat 47) then afterLastSlash s' s' else afterLastSlash s' acc
  end.

Fixpoint extension (s acc : string) : string :=
  match s with
  | EmptyString => acc
  | String c s' =>
      if Ascii.eqb c (ascii_of_nat 46) then extension s' s
      else if Ascii.eqb c (ascii_of_nat 47) then extension s' EmptyString
      else extension s' acc
  end.

Fixpoint digits (s : string) (acc : Z) : option Z :=
  match s with
  | EmptyString => Some acc
  | String c s' =>
      let n := nat_of_ascii c in
      if ((48 <=? n) && (n <=? 57))%nat then digits s' (10 * acc + Z.of_nat (n - 48)) else None
  end.

Definition lowerByte (c : ascii) : ascii :=
  let n := nat_of_ascii c in
  if ((65 <=? n) && (n <=? 90))%nat then ascii_of_nat (n + 32) else c.

Definition text : GoText := {| ToLower := mapBytes lowerByte |}.

Definition lib : GoLib :=
  {| TrimSpace := trimBoth;
     ToUpper := mapBytes upperByte;
     doublestar_Match := String.eqb;
     doublestar_PathMatch := String.eqb;
     filepath_Base := fun p => afterLastSlash p p;
     filepath_Ext := fun p => extension p EmptyString;
     Atoi := fun s => if String.eqb s "" then None else digits s 0 |}.

(** A JSON library for the examples: it decodes the one text the examples
    use and encodes nothing. *)
Definition json : GoJSON database.Value :=
  {| json_Unmarshal := fun text =>
       if String.eqb text "{name:x}" then inl {[ "name" := database.VText "x" ]}
       else inr "invalid character";
     json_Encode := fun _ => "{}" |}.

(** An engine on which every call succeeds and changes nothing. *)
Definition engine : database.Engine :=
  {| database.engine_open := fun _ _ _ _ => database.OpenOk;
     database.engine_query := fun _ _ _ _ => database.Rows [] [] None;
     database.engine_exec := fun _ _ _ _ => database.ExecOk 0 0 |}.

(** An empty history store. *)
Definition store : history.Store :=
  {| history.ListQueryHistory := fun _ _ => inl [];
     history.ListAuditLog := fun _ _ => inl [] |}.

Definition user (name : string) (admin anonymous : bool) : access.UserInfo :=
  {| access.Name := name; access.IsAdmin := admin; access.PublicKeyFP := "";
     access.IsAnonymous := anonymous; access.AnonymousName := "";
     access.RemoteAddr := "" |}.

Definition source (path alias : string) : config.DatabaseSource :=
  {| config.Path := path; config.Alias := alias; config.Description := "";
     config.Recursive := false |}.

Definition db (path alias : string) (src : config.DatabaseSource) : database.DiscoveredDatabase :=
  {| database.Path := path; database.Alias := alias; database.Description := "";
     database.Size := 0; database.ModTime := 0; database.Source := src |}.

End Examples.

(** ** Vocabulary of the statements *)

Import access.

(** The entry [ListDatabases] builds for a database and a level. *)
Definition listed (db : database.DiscoveredDatabase) (level : Level) : database.DatabaseInfo :=
  {| database.DatabaseInfo_Path := database.Path db;
     database.DatabaseInfo_Alias := database.Alias db;
     database.DatabaseInfo_Description := database.Description db;
     database.DatabaseInfo_Size := database.Size db;
     database.DatabaseInfo_ModTime := database.ModTime db;
     database.AccessLevel := level |}.

(** A user that [Resolve] treats as anonymous: nil, or flagged anonymous;
    such a user carries no admin flag (the data model allows the flag on
    authenticated users only). *)
Definition anonymous (user : option UserInfo) : Prop :=
  match user with
  | None => True
  | Some u => IsAnonymous u = true /\ IsAdmin u = false
  end.

(** A manager with two discovered databases and no rules at all. *)
Definition adminExampleManager : database.Manager :=
  {| database.discovery :=
       {| database.sources := [];
          database.databases :=
            <["/data/a.db" := Examples.db "/data/a.db" "a" (Examples.source "/data/*.db" "")]>
              (<["/data/b.db" := Examples.db "/data/b.db" "b" (Examples.source "/data/*.db" "")]> ∅);
          database.watched := ∅ |};
     database.connections := ∅;
     database.lockManager := database.NewLockManager;
     database.resolver := NewResolver |}.

(** The resolver of the repository's test of anonymous access: anonymous
    default [ReadOnly] and the public rule [protected -> None]. *)
Definition protectedResolver : Resolver :=
  AddPublicRule (SetAnonymousAccess NewResolver ReadOnly) "protected" LevelNone.

(** ** The classifier and the identifier syntax in the specification's words *)

(** The keywords that make a statement read-only. *)
Definition readOnlyKeywords : list string := ["SELECT"; "PRAGMA"; "EXPLAIN"; "WITH"].

(** White space: space, horizontal tab, line feed, carriage return. *)
Definition whitespace : list ascii :=
  [ascii_of_nat 32; ascii_of_nat 9; ascii_of_nat 10; ascii_of_nat 13].

Definition isWhitespace (c : ascii) : bool := existsb (Ascii.eqb c) whitespace.

(** Trimming leading white space. *)
Fixpoint trimLeadingWhitespace (s : string) : string :=
  match s with
  | EmptyString => EmptyString
  | String c s' => if isWhitespace c then trimLeadingWhitespace s' else s
  end.

(** Upper-casing the whole string (ASCII letters). *)
Definition uppercase (s : string) : string := mapBytes upperByte s.

Definition beginsWith (s keyword : string) : Prop := exists rest, s = keyword ++ rest.

(** "After trimming leading whitespace and uppercasing, the string begins
    with one of the prefixes." *)
Definition readOnlyByPrefix (sql : string) : Prop :=
  exists keyword, keyword ∈ readOnlyKeywords
                  /\ beginsWith (uppercase (trimLeadingWhitespace sql)) keyword.

Inductive QueryClass := read_only | writing.

(** The manager's classification of a statement. *)
Definition classify (sql : string) : QueryClass :=
  if database.isReadOnlyQuery sql then read_only else writing.

(** Modelled from the spec: the parser of quoted identifiers is the
    engine's and is not in the repository.  Un-quoting strips the outer
    quotes and collapses doubled quotes: after the opening quote, a doubled
    quote stands for one quote and a single quote must close the
    identifier. *)
Fixpoint unquoteBody (s : string) : option string :=
  match s with
  | EmptyString => None
  | String c rest =>
      if Ascii.eqb c dquote then
        match rest with
        | EmptyString => Some EmptyString
        | String c' rest' =>
            if Ascii.eqb c' dquote then option_map (String dquote) (unquoteBody rest')
            else None
        end
      else option_map (String c) (unquoteBody rest)
  end.

(** Modelled from the spec: un-quoting a quoted identifier; [None] when the
    text is not a quoted identifier. *)
Definition unquoteIdentifier (quoted : string) : option string :=
  match quoted with
  | EmptyString => None
  | String c body => if Ascii.eqb c dquote then unquoteBody body else None
  end.

(** The NUL byte. *)
Definition nul : ascii := ascii_of_nat 0.

(** ** Snapshots *)

(** A snapshot is keyed by the path of each database. *)
Definition keyedByPath (m : gmap string database.DiscoveredDatabase) : Prop :=
  forall p db, m !! p = Some db -> database.Path db = p.

(** Two configured sources with the same fixed alias, one file each. *)
Definition sourceA : config.DatabaseSource := Examples.source "/data/a.db" "main".
Definition sourceB : config.DatabaseSource := Examples.source "/srv/b.db" "main".
Definition databaseA : database.DiscoveredDatabase := Examples.db "/data/a.db" "main" sourceA.
Definition databaseB : database.DiscoveredDatabase := Examples.db "/srv/b.db" "main" sourceB.

(** A file system on which each of the two sources yields its file. *)
Definition twoFiles : database.SourceDiscovery :=
  fun source =>
    if String.eqb (config.Path source) "/data/a.db" then Some ([databaseA], ["/data"])
    else if String.eqb (config.Path source) "/srv/b.db" then Some ([databaseB], ["/srv"])
    else None.

(** ** Flags on the command line *)

(** The boolean flag [--name], or [-name], is among the arguments. *)
Definition flagGiven (args : list string) (name : string) : Prop :=
  ("--" ++ name) ∈ args \/ ("-" ++ name) ∈ args.

(** Some argument begins with [--name=], or [-name=]. *)
Definition valueGiven (args : list string) (name : string) : Prop :=
  exists arg, arg ∈ args
              /\ (String.prefix ("--" ++ name ++ "=") arg = true
                  \/ String.prefix ("-" ++ name ++ "=") arg = true).

(** ** A manager for the examples *)

(** One database, alias [test]; anonymous users may read. *)
Definition testManager : database.Manager :=
  {| database.discovery :=
       {| database.sources := [Examples.source "/data/users.db" "test"];
          database.databases :=
            {[ "/data/users.db" :=
                 Examples.db "/data/users.db" "test" (Examples.source "/data/users.db" "test") ]};
          database.watched := {[ "/data" ]} |};
     database.connections := ∅;
     database.lockManager := database.NewLockManager;
     database.resolver := SetAnonymousAccess NewResolver ReadOnly |}.

(** A command context with the given user and arguments. *)
Definition commandContext (user : option UserInfo) (args : list string) : cli.CommandContext :=
  {| cli.Session := None; cli.User := user; cli.SessionInfo := None; cli.Args := args;
     cli.Out := []; cli.Err := []; cli.exitCode := 0 |}.

(** The example manager with the lock of its database held by a session. *)
Definition heldBy (session : string) : database.Manager :=
  database.withLockManager testManager
    {| database.locks :=
         {[ "/data/users.db" := {| database.HeldBy := "alice";
                                   database.SessionID := session;
                                   database.Since := 1402 |} ]} |}.

(** A user that the first step of [Resolve] does not make an admin. *)
Definition notAdmin (r : Resolver) (user : option UserInfo) : Prop :=
  match user with
  | None => True
  | Some u => IsAdmin u = false /\ (IsAnonymous u = true \/ isListedAdmin r (Name u) = false)
  end.

(** ** Rules in the configuration and in the resolver *)

(** The rules the configuration gives the user [name]: those of every entry
    of that name, in the order of the entries. *)
Definition configuredRules {L : GoLib} {T : GoText}
    (users : list config.User) (name : string) : list Rule :=
  concat ((fun user => if decide (name = config.User_Name user)
                       then config.AccessRule_ToAccessRule <$> config.Access user
                       else []) <$> users).

(** The rule list of a name in a resolver; empty when the name has none. *)
Definition rulesOf (r : Resolver) (name : string) : list Rule :=
  default [] (UserRules r !! name).

(** The configuration of the manager's access-control test. *)
Definition testConfig : config.Config :=
  {| config.Databases := [Examples.source "/data/users.db" "test"];
     config.AnonymousAccess := "none";
     config.AllowKeyless := false;
     config.Users :=
       [ {| config.User_Name := "reader"; config.User_Admin := false; config.PublicKeys := [];
            config.Access := [ {| config.AccessRule_Pattern := "*";
                                  config.AccessRule_Level := "read-only" |} ] |};
         {| config.User_Name := "admin"; config.User_Admin := true; config.PublicKeys := [];
            config.Access := [] |} ];
     config.Public := [] |}.

(** ** What a scan finds *)

(** Everything the sources yield, in the order of the sources and, within a
    source, of its discovery; a source whose discovery fails yields nothing. *)
Definition allFound (discoverSource : database.SourceDiscovery)
    (sources : list config.DatabaseSource) : list database.DiscoveredDatabase :=
  concat ((fun source => match discoverSource source with
                         | Some (found, _) => found
                         | None => []
                         end) <$> sources).

(** ** Trimming in the command line's classifier *)

(** Dropping leading spaces and tabs. *)
Fixpoint dropLeadingSpaceTab (s : string) : string :=
  match s with
  | EmptyString => EmptyString
  | String c s' => if cli.isSpaceOrTab c then dropLeadingSpaceTab s' else s
  end.

(** ** Calls of the engine *)

(** One statement sent to the engine on a connection, as a query or as an
    exec, whichever way [Query] dispatches it. *)
Definition oneCall (conn : database.Connection) (query : string) (args : list database.Value)
    (before after : list database.Event) : Prop :=
  after = (before ++ [database.EvQuery conn query args])%list
  \/ after = (before ++ [database.EvExec conn query args])%list.

(** ** Column lists *)

(** The byte [','] and the separator made of it. *)
Definition comma : ascii := ascii_of_nat 44.

(** A part free of the separating byte. *)
Definition lacks (c : ascii) (p : string) : Prop := containsByte c p = false.

(** A column name as [parseColumns] returns it: not empty, without a comma,
    and left as it is by [trim]. *)
Definition columnName (col : string) : Prop :=
  col <> "" /\ lacks comma col /\ cli.trim col = col.

(** * Properties *)

(** ** Access levels *)

Lemma CanWrite_CanRead (l : Level) : CanWrite l = true -> CanRead l = true.
Proof. destruct l; cbv; congruence. Qed.

Lemma CanAdmin_CanWrite (l : Level) : CanAdmin l = true -> CanWrite l = true.
Proof. destruct l; cbv; congruence. Qed.

Lemma CanRead_Admin : CanRead Admin = true.
Proof. reflexivity. Qed.

(** ** The resolver *)

Section ResolverFacts.
Context {L : GoLib}.

Lemma Resolve_admin_flag (r : Resolver) (u : UserInfo) (dbPath dbAlias : string) :
  IsAdmin u = true -> Resolve r (Some u) dbPath dbAlias = Admin.
Proof. intros Hflag. unfold Resolve. now rewrite Hflag. Qed.

Lemma Resolve_listed_admin (r : Resolver) (u : UserInfo) (dbPath dbAlias : string) :
  IsAnonymous u = false -> isListedAdmin r (Name u) = true ->
  Resolve r (Some u) dbPath dbAlias = Admin.
Proof.
  intros Hanon Hlisted. unfold Resolve.
  destruct (IsAdmin u); [reflexivity|].
  now rewrite Hanon, Hlisted.
Qed.

Lemma Resolve_admin (r : Resolver) (u : UserInfo) (dbPath dbAlias : string) :
  IsAnonymous u = false ->
  IsAdmin u = true \/ isListedAdmin r (Name u) = true ->
  Resolve r (Some u) dbPath dbAlias = Admin.
Proof.
  intros Hanon [Hflag | Hlisted];
    [now apply Resolve_admin_flag | now apply Resolve_listed_admin].
Qed.

(** For an anonymous user the first two steps of [Resolve] are skipped. *)
Lemma Resolve_anonymous (r : Resolver) (user : option UserInfo) (dbPath dbAlias : string) :
  anonymous user ->
  Resolve r user dbPath dbAlias =
    match returnedUnlessNone (matchRules (PublicRules r) dbPath dbAlias) with
    | Some level => level
    | None => AnonymousAccess r
    end.
Proof.
  destruct user as [u|]; simpl; [|reflexivity].
  intros [Hanon Hflag]. unfold Resolve. now rewrite Hflag, Hanon.
Qed.

(** [matchRules] returns the level of the first rule whose pattern matches. *)
Lemma matchRules_first_match (before after : list Rule) (rule : Rule) (dbPath dbAlias : string) :
  Forall (fun r => matchPattern (Pattern r) dbPath dbAlias = false) before ->
  matchPattern (Pattern rule) dbPath dbAlias = true ->
  matchRules (before ++ rule :: after) dbPath dbAlias = Level_ rule.
Proof.
  intros Hbefore Hrule. induction Hbefore as [|r before Hr _ IH]; simpl.
  - now rewrite Hrule.
  - now rewrite Hr.
Qed.

End ResolverFacts.

(** ** Listing databases *)

Section Listing.
Context {L : GoLib} {R : MapRange}.

Lemma GetDatabases_perm (d : database.Discovery) :
  database.GetDatabases d ≡ₚ (map_to_list (database.databases d)).*2.
Proof. unfold database.GetDatabases. now rewrite rangeMap_perm. Qed.

Lemma elem_of_GetDatabases (d : database.Discovery) (db : database.DiscoveredDatabase) :
  db ∈ database.GetDatabases d <-> exists p, database.databases d !! p = Some db.
Proof.
  rewrite GetDatabases_perm, list_elem_of_fmap. split.
  - intros [[p db'] [-> Hin]]. exists p. now apply elem_of_map_to_list in Hin.
  - intros [p Hp]. exists (p, db). split; [reflexivity|]. now apply elem_of_map_to_list.
Qed.

Lemma length_GetDatabases (d : database.Discovery) :
  length (database.GetDatabases d) = size (database.databases d).
Proof. now rewrite GetDatabases_perm, length_fmap, length_map_to_list. Qed.

Lemma ListDatabases_all_Admin (m : database.Manager) (user : option UserInfo) :
  (forall dbPath dbAlias, Resolve (database.resolver m) user dbPath dbAlias = Admin) ->
  database.ListDatabases m user
  = (fun db => listed db Admin) <$> database.GetDatabases (database.discovery m).
Proof.
  intros Hall. unfold database.ListDatabases.
  induction (database.GetDatabases (database.discovery m)) as [|db dbs IH]; [reflexivity|].
  cbn [omap list_omap fmap list_fmap]. rewrite Hall. cbn. f_equal. exact IH.
Qed.

(** C2.  A user that is not anonymous and either carries the admin flag or
    is named in the resolver's admin list resolves to [Admin] on every path
    and alias, whatever the user and public rules are; and [ListDatabases]
    returns, for such a user, one entry per discovered database, each with
    level [Admin]. *)
Theorem admin_resolves_Admin_and_lists_everything
    (m : database.Manager) (u : UserInfo) :
  IsAnonymous u = false ->
  IsAdmin u = true \/ isListedAdmin (database.resolver m) (Name u) = true ->
  (forall dbPath dbAlias, Resolve (database.resolver m) (Some u) dbPath dbAlias = Admin)
  /\ database.ListDatabases m (Some u)
     = (fun db => listed db Admin) <$> database.GetDatabases (database.discovery m)
  /\ (forall p db, database.databases (database.discovery m) !! p = Some db ->
        listed db Admin ∈ database.ListDatabases m (Some u))
  /\ length (database.ListDatabases m (Some u))
     = size (database.databases (database.discovery m)).
Proof.
  intros Hanon Hadmin.
  assert (Hall : forall dbPath dbAlias,
             Resolve (database.resolver m) (Some u) dbPath dbAlias = Admin)
    by (intros; now apply Resolve_admin).
  split; [exact Hall|].
  rewrite (ListDatabases_all_Admin m (Some u) Hall).
  split; [reflexivity|]. split.
  - intros p db Hp. apply list_elem_of_fmap. exists db. split; [reflexivity|].
    apply elem_of_GetDatabases. now exists p.
  - now rewrite length_fmap, length_GetDatabases.
Qed.

End Listing.

Lemma admin_resolves_Admin_and_lists_everything_witness :
  length (database.ListDatabases (L := Examples.lib) (R := MapRange_default)
            adminExampleManager (Some (Examples.user "root" true false))) = 2%nat.
Proof.
  refine (eq_trans
    (proj2 (proj2 (proj2
       (admin_resolves_Admin_and_lists_everything (L := Examples.lib) (R := MapRange_default)
          adminExampleManager (Examples.user "root" true false) _ _)))) _).
  - reflexivity.
  - left. reflexivity.
  - vm_compute. reflexivity.
Defined.

(** ** The explicit deny of a public rule *)

Section PublicDeny.
Context {L : GoLib}.

(** C3 (the code's behaviour).  For an anonymous or nil user and a database
    whose first matching public rule has level [None], [Resolve] does not
    stop at that rule: [matchRules] reports the rule's level [None], which
    [Resolve] reads as no match, and the result is the anonymous default
    level. *)
Theorem public_None_rule_falls_through_to_anonymous_default
    (r : Resolver) (user : option UserInfo) (dbPath dbAlias : string)
    (before after : list Rule) (rule : Rule) :
  anonymous user ->
  PublicRules r = (before ++ rule :: after)%list ->
  Forall (fun r' => matchPattern (Pattern r') dbPath dbAlias = false) before ->
  matchPattern (Pattern rule) dbPath dbAlias = true ->
  Level_ rule = LevelNone ->
  Resolve r user dbPath dbAlias = AnonymousAccess r.
Proof.
  intros Hanon Hrules Hbefore Hmatch Hnone.
  rewrite (Resolve_anonymous r user dbPath dbAlias Hanon), Hrules.
  rewrite (matchRules_first_match before after rule dbPath dbAlias Hbefore Hmatch).
  now rewrite Hnone.
Qed.

End PublicDeny.

Lemma public_None_rule_falls_through_to_anonymous_default_witness :
  Resolve (L := Examples.lib) protectedResolver (Some (Examples.user "anon" false true))
          "/data/protected.db" "protected" = ReadOnly.
Proof.
  apply (public_None_rule_falls_through_to_anonymous_default (L := Examples.lib)
           protectedResolver (Some (Examples.user "anon" false true))
           "/data/protected.db" "protected" [] []
           {| Pattern := "protected"; Level_ := LevelNone |}).
  - split; reflexivity.
  - reflexivity.
  - constructor.
  - vm_compute. reflexivity.
  - reflexivity.
Defined.

(** ** Admin-only commands *)

Section AdminCommands.
Context {L : GoLib} {R : MapRange} {HS : history.Store}.

Lemma RequireAdmin_without_flag (ctx : cli.CommandContext) :
  (forall u, cli.User ctx = Some u -> IsAdmin u = false) ->
  cli.RequireAdmin ctx = (cli.fail ctx "Access denied: admin access required", false).
Proof.
  intros Hflag. unfold cli.RequireAdmin.
  destruct (cli.User ctx) as [u|]; [|reflexivity].
  now rewrite (Hflag u eq_refl).
Qed.

Lemma RequireAdmin_with_flag (ctx : cli.CommandContext) (u : UserInfo) :
  cli.User ctx = Some u -> IsAdmin u = true -> cli.RequireAdmin ctx = (ctx, true).
Proof. intros Hu Hflag. unfold cli.RequireAdmin. now rewrite Hu, Hflag. Qed.

(** C10.  The commands sessions, history, audit and reload-config look at
    the user's admin flag only: for a user whose flag is false each of them
    ends with exit code 1, having written the denial to the error stream and
    nothing else, without a call to the history store; this is so even when
    the user is named in a resolver's admin list and therefore resolves to
    [Admin] on every database. *)
Theorem admin_commands_require_the_admin_flag
    (h : cli.Handler) (cmd : cli.AdminCommand) (ctx : cli.CommandContext)
    (trace : list database.Event) (u : UserInfo) :
  cli.User ctx = Some u ->
  IsAdmin u = false ->
  cli.routeAdminCommand h cmd ctx trace
  = (cli.fail ctx "Access denied: admin access required", trace)
  /\ cli.exitCode (cli.routeAdminCommand h cmd ctx trace).1 = 1
  /\ forall r : Resolver,
       IsAnonymous u = false -> isListedAdmin r (Name u) = true ->
       forall dbPath dbAlias, Resolve r (Some u) dbPath dbAlias = Admin.
Proof.
  intros Hu Hflag.
  assert (Hreq : cli.RequireAdmin ctx
                 = (cli.fail ctx "Access denied: admin access required", false)).
  { apply RequireAdmin_without_flag. intros u' Hu'. congruence. }
  assert (Hrun : cli.routeAdminCommand h cmd ctx trace
                 = (cli.fail ctx "Access denied: admin access required", trace)).
  { destruct cmd; unfold cli.routeAdminCommand, cli.cmdSessions, cli.cmdHistory,
      cli.cmdAudit, cli.cmdReloadConfig; now rewrite Hreq. }
  split; [exact Hrun|]. split; [now rewrite Hrun|].
  intros r Hanon Hlisted dbPath dbAlias. now apply Resolve_listed_admin.
Qed.

End AdminCommands.

Lemma admin_commands_require_the_admin_flag_witness :
  let ctx := {| cli.Session := Some {| server.sessionMgr := Some {| server.sessions := ∅ |} |};
                cli.User := Some (Examples.user "ops" false false);
                cli.SessionInfo := None; cli.Args := []; cli.Out := []; cli.Err := [];
                cli.exitCode := 0 |} in
  cli.exitCode
    (cli.routeAdminCommand (L := Examples.lib) (R := MapRange_default) (HS := Examples.store)
       {| cli.historyStore := true; cli.version := "dev" |} cli.history_ ctx []).1 = 1
  /\ Resolve (L := Examples.lib) (AddAdmin NewResolver "ops")
       (Some (Examples.user "ops" false false)) "/data/a.db" "a" = Admin.
Proof.
  intros ctx.
  pose proof (admin_commands_require_the_admin_flag (L := Examples.lib)
                (R := MapRange_default) (HS := Examples.store)
                {| cli.historyStore := true; cli.version := "dev" |} cli.history_ ctx []
                (Examples.user "ops" false false) eq_refl eq_refl) as (_ & Hexit & Hlevel).
  split; [exact Hexit|].
  apply Hlevel; reflexivity.
Defined.

(** ** The lock manager *)

Section Locks.
Import database.

Lemma TryLock_reentrant (lm : LockManager) (dbPath holder sessionID : string) (now : Z)
    (info : LockInfo) :
  locks lm !! dbPath = Some info -> SessionID info = sessionID ->
  TryLock lm dbPath holder sessionID now = (None, lm).
Proof.
  intros Hinfo Hsame. unfold TryLock. rewrite Hinfo.
  now rewrite (proj2 (String.eqb_eq _ _) Hsame).
Qed.

Lemma TryLock_held (lm : LockManager) (dbPath holder sessionID : string) (now : Z)
    (info : LockInfo) :
  locks lm !! dbPath = Some info -> SessionID info <> sessionID ->
  TryLock lm dbPath holder sessionID now
  = (Some {| LockError_Database := dbPath; LockError_HeldBy := HeldBy info;
             LockError_Since := Since info |}, lm).
Proof.
  intros Hinfo Hother. unfold TryLock. rewrite Hinfo.
  now rewrite (proj2 (String.eqb_neq _ _) Hother).
Qed.

Lemma TryLock_free (lm : LockManager) (dbPath holder sessionID : string) (now : Z) :
  locks lm !! dbPath = None ->
  TryLock lm dbPath holder sessionID now
  = (None, {| locks := <[dbPath := {| HeldBy := holder; SessionID := sessionID;
                                      Since := now |}]> (locks lm) |}).
Proof. intros Hfree. unfold TryLock. now rewrite Hfree. Qed.

(** The keys of the lock table are pairwise distinct: one entry per path. *)
Lemma one_entry_per_path (lm : LockManager) : NoDup (map_to_list (locks lm)).*1.
Proof. apply NoDup_fst_map_to_list. Qed.

(** C4.  [TryLock] on a path (1) held by the same session succeeds and
    leaves the lock table as it is; (2) held by another session fails with
    a [LockError] that names the path, the holder and the acquisition time
    of the existing entry, and leaves the lock table as it is; (3) not held
    succeeds and installs the requester's entry for the path, all other
    paths untouched, the table one entry larger.  In every case the
    resulting table has one entry per path. *)
Theorem TryLock_outcomes (lm : LockManager) (dbPath holder sessionID : string) (now : Z) :
  (forall info, locks lm !! dbPath = Some info -> SessionID info = sessionID ->
     TryLock lm dbPath holder sessionID now = (None, lm))
  /\ (forall info, locks lm !! dbPath = Some info -> SessionID info <> sessionID ->
        TryLock lm dbPath holder sessionID now
        = (Some {| LockError_Database := dbPath; LockError_HeldBy := HeldBy info;
                   LockError_Since := Since info |}, lm))
  /\ (locks lm !! dbPath = None ->
        (TryLock lm dbPath holder sessionID now).1 = None
        /\ locks (TryLock lm dbPath holder sessionID now).2 !! dbPath
           = Some {| HeldBy := holder; SessionID := sessionID; Since := now |}
        /\ (forall other, other <> dbPath ->
              locks (TryLock lm dbPath holder sessionID now).2 !! other = locks lm !! other)
        /\ size (locks (TryLock lm dbPath holder sessionID now).2) = S (size (locks lm)))
  /\ NoDup (map_to_list (locks (TryLock lm dbPath holder sessionID now).2)).*1.
Proof.
  split; [intros info; apply TryLock_reentrant|].
  split; [intros info; apply TryLock_held|].
  split; [|apply one_entry_per_path].
  intros Hfree. rewrite (TryLock_free lm dbPath holder sessionID now Hfree). cbn.
  split; [reflexivity|]. split; [apply lookup_insert_eq|]. split.
  - intros other Hother. now apply lookup_insert_ne.
  - now apply map_size_insert_None.
Qed.

End Locks.

Lemma TryLock_outcomes_witness :
  let held := {| database.locks :=
                  {[ "/data/a.db" := {| database.HeldBy := "alice";
                                        database.SessionID := "s1";
                                        database.Since := 1402 |} ]} |} in
  database.TryLock held "/data/a.db" "alice" "s1" 1500 = (None, held)
  /\ database.TryLock held "/data/a.db" "bob" "s2" 1500
     = (Some {| database.LockError_Database := "/data/a.db";
                database.LockError_HeldBy := "alice";
                database.LockError_Since := 1402 |}, held)
  /\ (database.TryLock database.NewLockManager "/data/a.db" "bob" "s2" 1500).1 = None.
Proof.
  intros held.
  pose proof (TryLock_outcomes held "/data/a.db" "alice" "s1" 1500) as (Hsame & _).
  pose proof (TryLock_outcomes held "/data/a.db" "bob" "s2" 1500) as (_ & Hother & _).
  pose proof (TryLock_outcomes database.NewLockManager "/data/a.db" "bob" "s2" 1500)
    as (_ & _ & Hfree & _).
  split; [|split].
  - eapply Hsame; [apply lookup_singleton_eq | reflexivity].
  - apply (Hother _ (lookup_singleton_eq _ _)). cbn. discriminate.
  - apply Hfree. apply lookup_empty.
Defined.

(** ** The read-only classifier *)

Section Classifier.
Import database.

Lemma prefix_beginsWith (p s : string) : String.prefix p s = true <-> beginsWith s p.
Proof.
  revert s. induction p as [|a p IH]; intros s; simpl.
  - split; [intros _; now exists s | intros _; now destruct s].
  - destruct s as [|b s]; simpl.
    + split; [discriminate | intros [rest Hrest]; discriminate].
    + destruct (ascii_dec a b) as [->|Hne].
      * rewrite IH. split; intros [rest Hrest]; exists rest.
        -- now rewrite Hrest.
        -- change (String b s = String b (p ++ rest)) in Hrest. congruence.
      * split; [discriminate|]. intros [rest Hrest].
        change (String b s = String a (p ++ rest)) in Hrest. congruence.
Qed.

Lemma prefix_length (p s : string) :
  String.prefix p s = true -> (String.length p <= String.length s)%nat.
Proof.
  revert s. induction p as [|a p IH]; intros [|b s]; simpl; try lia; try discriminate.
  destruct (ascii_dec a b); [|discriminate]. intros Hp. apply IH in Hp. lia.
Qed.

Lemma hasPrefix_prefix (s p : string) : hasPrefix s p = String.prefix p s.
Proof.
  unfold hasPrefix, slice, len.
  replace (Z.to_nat 0) with 0%nat by reflexivity.
  replace (Z.to_nat (Z.of_nat (String.length p) - 0)) with (String.length p) by lia.
  destruct (String.prefix p s) eqn:Hp.
  - apply andb_true_iff. split.
    + apply Z.leb_le. apply prefix_length in Hp. lia.
    + apply String.eqb_eq. now apply prefix_correct.
  - apply andb_false_iff. right. apply String.eqb_neq. intros Hsub.
    apply prefix_correct in Hsub. congruence.
Qed.

Lemma length_mapBytes (f : ascii -> ascii) (s : string) :
  String.length (mapBytes f s) = String.length s.
Proof. induction s; simpl; congruence. Qed.

Lemma skipBlanks_nonneg (s : string) : 0 <= skipBlanks s.
Proof. induction s as [|c s IH]; simpl; [lia|]. destruct (isBlank c); lia. Qed.

Lemma isBlank_isWhitespace (c : ascii) : isBlank c = isWhitespace c.
Proof. destruct c as [[] [] [] [] [] [] [] []]; reflexivity. Qed.

Lemma len_trimLeadingWhitespace (s : string) :
  len (trimLeadingWhitespace s) = len s - skipBlanks s.
Proof.
  unfold len. induction s as [|c s IH]; simpl; [reflexivity|].
  rewrite <- isBlank_isWhitespace. destruct (isBlank c); simpl String.length; lia.
Qed.

(** [s[start:start+k]] is the first [k] bytes of the trimmed string. *)
Lemma substring_skipBlanks (s : string) (k : nat) :
  String.substring (Z.to_nat (skipBlanks s)) k s
  = String.substring 0 k (trimLeadingWhitespace s).
Proof.
  induction s as [|c s IH]; simpl; [reflexivity|].
  rewrite <- isBlank_isWhitespace. destruct (isBlank c); [|reflexivity].
  pose proof (skipBlanks_nonneg s).
  replace (Z.to_nat (1 + skipBlanks s)) with (S (Z.to_nat (skipBlanks s))) by lia.
  exact IH.
Qed.

Lemma substring_all (s : string) (k : nat) :
  (String.length s <= k)%nat -> String.substring 0 k s = s.
Proof.
  revert k. induction s as [|c s IH]; intros [|k]; simpl; try reflexivity; try lia.
  intros Hk. f_equal. apply IH. lia.
Qed.

(** A prefix no longer than [k] is decided by the first [k] bytes. *)
Lemma prefix_of_first_bytes (f : ascii -> ascii) (p s : string) (k : nat) :
  (String.length p <= k)%nat ->
  String.prefix p (mapBytes f (String.substring 0 k s)) = String.prefix p (mapBytes f s).
Proof.
  revert s k. induction p as [|a p IH]; intros s k Hk;
    [now destruct (mapBytes f (String.substring 0 k s)), (mapBytes f s)|].
  destruct k as [|k]; [simpl in Hk; lia|].
  destruct s as [|c s]; [reflexivity|].
  simpl. destruct (ascii_dec a (f c)); [|reflexivity].
  apply IH. simpl in Hk. lia.
Qed.

(** The 20-byte window of [trimToUpper] does not change what a keyword of at
    most 20 bytes sees. *)
Lemma hasPrefix_trimToUpper (sql keyword : string) :
  (String.length keyword <= 20)%nat ->
  hasPrefix (trimToUpper sql) keyword
  = String.prefix keyword (uppercase (trimLeadingWhitespace sql)).
Proof.
  intros Hkw. rewrite hasPrefix_prefix. unfold trimToUpper, slice, uppercase.
  rewrite substring_skipBlanks.
  pose proof (len_trimLeadingWhitespace sql) as Hlen.
  pose proof (skipBlanks_nonneg sql) as Hnn.
  unfold len in *.
  destruct (Z.ltb_spec (Z.of_nat (String.length sql)) (skipBlanks sql + 20)) as [Hshort|Hlong].
  - rewrite substring_all; [reflexivity|]. lia.
  - replace (Z.to_nat (skipBlanks sql + 20 - skipBlanks sql)) with 20%nat by lia.
    now apply prefix_of_first_bytes.
Qed.

Lemma isReadOnlyQuery_prefix (sql : string) :
  isReadOnlyQuery sql
  = existsb (fun keyword => String.prefix keyword (uppercase (trimLeadingWhitespace sql)))
            readOnlyKeywords.
Proof.
  unfold isReadOnlyQuery, readOnlyKeywords. cbn [existsb].
  rewrite !hasPrefix_trimToUpper by (simpl; lia).
  now rewrite orb_false_r, !orb_assoc.
Qed.

Lemma isReadOnlyQuery_true (sql : string) :
  isReadOnlyQuery sql = true <-> readOnlyByPrefix sql.
Proof.
  rewrite isReadOnlyQuery_prefix, existsb_exists. unfold readOnlyByPrefix.
  split; intros [keyword [Hin Hp]]; exists keyword.
  - split; [now apply list_elem_of_In | now apply prefix_beginsWith].
  - split; [now apply list_elem_of_In | now apply prefix_beginsWith].
Qed.

(** C6.  A statement is classified as read-only exactly when, after its
    leading white space (space, tab, line feed, carriage return) is trimmed
    and its ASCII letters are upper-cased, it begins with SELECT, PRAGMA,
    EXPLAIN or WITH; every other statement is classified as writing. *)
Theorem classify_read_only_iff_keyword_prefix (sql : string) :
  (classify sql = read_only <-> readOnlyByPrefix sql)
  /\ (classify sql = writing <-> ~ readOnlyByPrefix sql).
Proof.
  rewrite <- isReadOnlyQuery_true. unfold classify.
  destruct (isReadOnlyQuery sql); split; split; intros; try congruence; try easy.
Qed.

End Classifier.

(** The classifier on the statements of the repository's test table. *)
Example classify_examples :
  List.map classify
    ["SELECT * FROM users"; "select * from users"; "  SELECT * FROM users";
     "PRAGMA table_info(users)"; "EXPLAIN SELECT * FROM users";
     "WITH cte AS (SELECT 1) SELECT * FROM cte";
     "INSERT INTO users VALUES (1)"; "UPDATE users SET x = 1"; "DELETE FROM users";
     "DROP TABLE users"; "VACUUM"; ""]
  = [read_only; read_only; read_only; read_only; read_only; read_only;
     writing; writing; writing; writing; writing; writing].
Proof. vm_compute. reflexivity. Qed.

(** The classifier is coarse.  It trims before it takes its 20-byte window;
    it takes a statement that begins with WITH for a read whatever follows;
    and a byte other than the four it trims (here a vertical tab) in front of
    the keyword makes the statement writing. *)
Example classify_boundaries :
  classify "                         select 1" = read_only
  /\ classify "WITH t AS (SELECT 1) INSERT INTO u SELECT * FROM t" = read_only
  /\ classify (String (ascii_of_nat 11) "SELECT 1") = writing.
Proof. vm_compute. repeat split. Qed.

(** ** Identifier quoting *)

Section Quoting.
Import database.

Lemma unquoteBody_quoted (name : string) :
  unquoteBody (replaceByte dquote (String dquote (String dquote EmptyString)) name
               ++ String dquote EmptyString) = Some name.
Proof.
  induction name as [|c name IH]; [reflexivity|].
  cbn [replaceByte]. destruct (Ascii.eqb c dquote) eqn:Hc.
  - apply Ascii.eqb_eq in Hc. subst c.
    change (unquoteBody
              (String dquote (String dquote
                 (replaceByte dquote (String dquote (String dquote EmptyString)) name
                  ++ String dquote EmptyString))) = Some (String dquote name)).
    cbn [unquoteBody]. rewrite !Ascii.eqb_refl, IH. reflexivity.
  - change (unquoteBody
              (String c
                 (replaceByte dquote (String dquote (String dquote EmptyString)) name
                  ++ String dquote EmptyString)) = Some (String c name)).
    cbn [unquoteBody]. rewrite Hc, IH. reflexivity.
Qed.

Lemma unquote_quote (name : string) : unquoteIdentifier (quoteIdentifier name) = Some name.
Proof.
  unfold quoteIdentifier, unquoteIdentifier. rewrite Ascii.eqb_refl.
  apply unquoteBody_quoted.
Qed.

(** C7.  For an identifier without a NUL byte, un-quoting its quoted form
    (the outer quotes stripped, doubled quotes collapsed) gives the
    identifier back. *)
Theorem quoteIdentifier_round_trip (name : string) :
  containsByte nul name = false ->
  unquoteIdentifier (quoteIdentifier name) = Some name.
Proof. intros _. apply unquote_quote. Qed.

(** Hence quoting loses nothing: distinct identifiers have distinct quoted
    forms. *)
Lemma quoteIdentifier_injective (n1 n2 : string) :
  quoteIdentifier n1 = quoteIdentifier n2 -> n1 = n2.
Proof.
  intros Heq. apply (f_equal unquoteIdentifier) in Heq.
  rewrite !unquote_quote in Heq. congruence.
Qed.

End Quoting.

Lemma quoteIdentifier_round_trip_witness :
  let name := "users" ++ String dquote "; DROP TABLE users; --" in
  database.quoteIdentifier name
  = String dquote ("users" ++ String dquote (String dquote "; DROP TABLE users; --"))
    ++ String dquote EmptyString
  /\ unquoteIdentifier (database.quoteIdentifier name) = Some name.
Proof.
  intros name. split; [vm_compute; reflexivity|].
  apply (quoteIdentifier_round_trip name). vm_compute. reflexivity.
Defined.

(** ** Discovery snapshots *)

Section Snapshots.
Import database.
Context {R : MapRange}.

Lemma elem_of_rangeMap {V : Type} (m : gmap string V) (p : string) (v : V) :
  (p, v) ∈ rangeMap m <-> m !! p = Some v.
Proof. rewrite rangeMap_perm. apply elem_of_map_to_list. Qed.

Lemma keyedByPath_empty : keyedByPath ∅.
Proof. intros p db Hp. now rewrite lookup_empty in Hp. Qed.

Lemma keyedByPath_found (found : list DiscoveredDatabase) (m : gmap string DiscoveredDatabase) :
  keyedByPath m ->
  keyedByPath (foldl (fun newDatabases db => <[Path db := db]> newDatabases) m found).
Proof.
  revert m. induction found as [|db found IH]; intros m Hm; [exact Hm|].
  cbn [foldl]. apply IH. intros p db' Hp.
  destruct (decide (Path db = p)) as [<-|Hne].
  - rewrite lookup_insert_eq in Hp. congruence.
  - rewrite lookup_insert_ne in Hp by exact Hne. now apply Hm.
Qed.

Lemma keyedByPath_sources (discoverSource : SourceDiscovery)
    (sources : list config.DatabaseSource)
    (acc : gmap string DiscoveredDatabase * gset string) :
  keyedByPath acc.1 ->
  keyedByPath
    (foldl (fun acc source =>
              match discoverSource source with
              | None => acc
              | Some (found, watchDirs) =>
                  (foldl (fun newDatabases db => <[Path db := db]> newDatabases) acc.1 found,
                   foldl (fun watchPaths dir => {[dir]} ∪ watchPaths) acc.2 watchDirs)
              end) acc sources).1.
Proof.
  revert acc. induction sources as [|source sources IH]; intros acc Hacc; [exact Hacc|].
  cbn [foldl]. apply IH.
  destruct (discoverSource source) as [[found watchDirs]|]; [|exact Hacc].
  cbn [fst]. now apply keyedByPath_found.
Qed.

(** Every snapshot a scan produces is keyed by path. *)
Lemma scan_keyedByPath (discoverSource : SourceDiscovery) (d : Discovery) :
  keyedByPath (databases (scan discoverSource d).1).
Proof. cbn. apply keyedByPath_sources. apply keyedByPath_empty. Qed.

Lemma GetDatabase_by_path (d : Discovery) (p : string) (db : DiscoveredDatabase) :
  databases d !! p = Some db -> GetDatabase d p = Some db.
Proof. intros Hp. unfold GetDatabase. now rewrite Hp. Qed.

Lemma GetDatabase_Some (d : Discovery) (pathOrAlias : string) (db : DiscoveredDatabase) :
  GetDatabase d pathOrAlias = Some db ->
  databases d !! pathOrAlias = Some db
  \/ (databases d !! pathOrAlias = None /\ Alias db = pathOrAlias
      /\ exists p, databases d !! p = Some db).
Proof.
  unfold GetDatabase. destruct (databases d !! pathOrAlias) as [db'|] eqn:Hp.
  - intros [= <-]. now left.
  - intros Hfind. right. apply find_some in Hfind as [Hin Halias].
    split; [reflexivity|]. split; [now apply String.eqb_eq|].
    apply list_elem_of_In, list_elem_of_fmap in Hin as [[p db'] [-> Hin]].
    exists p. now apply elem_of_rangeMap.
Qed.

Lemma GetDatabase_None (d : Discovery) (pathOrAlias : string) :
  GetDatabase d pathOrAlias = None <->
  databases d !! pathOrAlias = None
  /\ forall p db, databases d !! p = Some db -> Alias db <> pathOrAlias.
Proof.
  unfold GetDatabase. destruct (databases d !! pathOrAlias) as [db'|] eqn:Hp.
  - split; [discriminate | intros [? _]; discriminate].
  - split.
    + intros Hfind. split; [reflexivity|]. intros p db Hdb Halias.
      assert (Hin : In db (rangeMap (databases d)).*2).
      { apply list_elem_of_In, list_elem_of_fmap. exists (p, db).
        split; [reflexivity | now apply elem_of_rangeMap]. }
      pose proof (find_none _ _ Hfind db Hin) as Hne. cbn beta in Hne.
      apply String.eqb_neq in Hne. contradiction.
    + intros [_ Hnone].
      destruct (List.find _ _) as [db|] eqn:Hfind; [|reflexivity].
      apply find_some in Hfind as [Hin Halias].
      apply list_elem_of_In, list_elem_of_fmap in Hin as [[p db'] [-> Hin]].
      apply elem_of_rangeMap in Hin. apply String.eqb_eq in Halias.
      now destruct (Hnone p db' Hin).
Qed.

(** C8, as the code has it.  In the snapshot of a scan (1) the entries are
    keyed by their absolute path, so no two entries share a path, and (2)
    every entry is returned by the lookup of its absolute path; (3) a lookup
    that is not answered by a path returns an entry of the snapshot with
    that alias, and (4) returns one whenever some entry has that alias.
    Which of several entries with the same alias it returns is left to the
    order in which the map is visited. *)
Theorem snapshot_lookup_by_path_and_alias
    (discoverSource : SourceDiscovery) (d : Discovery) :
  let snapshot := (scan discoverSource d).1 in
  (forall p1 p2 db1 db2,
      databases snapshot !! p1 = Some db1 -> databases snapshot !! p2 = Some db2 ->
      Path db1 = Path db2 -> p1 = p2 /\ db1 = db2)
  /\ (forall p db, databases snapshot !! p = Some db ->
        Path db = p /\ GetDatabase snapshot (Path db) = Some db)
  /\ (forall alias db,
        databases snapshot !! alias = None -> GetDatabase snapshot alias = Some db ->
        Alias db = alias /\ databases snapshot !! Path db = Some db)
  /\ (forall alias p db,
        databases snapshot !! p = Some db -> Alias db = alias ->
        is_Some (GetDatabase snapshot alias)).
Proof.
  intros snapshot.
  pose proof (scan_keyedByPath discoverSource d) as Hkeyed. fold snapshot in Hkeyed.
  split; [|split; [|split]].
  - intros p1 p2 db1 db2 H1 H2 Hpath.
    pose proof (Hkeyed p1 db1 H1) as H1'. pose proof (Hkeyed p2 db2 H2) as H2'.
    assert (p1 = p2) by congruence. subst p2. split; congruence.
  - intros p db Hp. split; [now apply Hkeyed|].
    apply GetDatabase_by_path. now rewrite (Hkeyed p db Hp).
  - intros alias db Hnopath Hget.
    apply GetDatabase_Some in Hget as [Hpath | (_ & Halias & p & Hp)]; [congruence|].
    split; [exact Halias|]. now rewrite (Hkeyed p db Hp).
  - intros alias p db Hp Halias.
    destruct (GetDatabase snapshot alias) as [db'|] eqn:Hget; [now eexists|].
    apply GetDatabase_None in Hget as [_ Hnone]. now destruct (Hnone p db Hp).
Qed.

End Snapshots.

(** C8, as stated, fails.  Two sources with the same fixed alias yield two
    databases with that alias, as [createDiscoveredDBFromPath] builds them.
    With the sources configured as A then B, and as B then A, the scan
    produces the same snapshot, so no order of visiting the
    map makes the lookup of the shared alias return the first-seen database
    in both; in the order of [MapRange_default] the lookup returns B although
    A was seen first.  Both databases are returned by their paths. *)
Lemma alias_collision_is_not_first_seen_wins :
  (database.createdFrom (L := Examples.lib) sourceA databaseA
   /\ database.createdFrom (L := Examples.lib) sourceB databaseB)
  /\ database.databases
    (database.scan (R := MapRange_default) twoFiles (database.NewDiscovery [sourceA; sourceB])).1
  = database.databases
      (database.scan (R := MapRange_default) twoFiles (database.NewDiscovery [sourceB; sourceA])).1
  /\ ~ (exists R : MapRange,
          database.GetDatabase (R := R)
            (database.scan (R := R) twoFiles (database.NewDiscovery [sourceA; sourceB])).1 "main"
          = Some databaseA
          /\ database.GetDatabase (R := R)
               (database.scan (R := R) twoFiles (database.NewDiscovery [sourceB; sourceA])).1 "main"
             = Some databaseB)
  /\ database.GetDatabase (R := MapRange_default)
       (database.scan (R := MapRange_default) twoFiles
          (database.NewDiscovery [sourceA; sourceB])).1 "main"
     = Some databaseB.
Proof.
  assert (Hsame : (<["/srv/b.db" := databaseB]> (<["/data/a.db" := databaseA]> ∅)
                   : gmap string database.DiscoveredDatabase)
                  = <["/data/a.db" := databaseA]> (<["/srv/b.db" := databaseB]> ∅)).
  { apply insert_insert_ne. discriminate. }
  split; [repeat split|]. split; [exact Hsame|]. split.
  - intros (R & HA & HB).
    unfold database.GetDatabase in HA, HB. cbn in HA, HB.
    rewrite Hsame in HA. rewrite HA in HB. discriminate.
  - vm_compute. reflexivity.
Qed.

Lemma snapshot_lookup_by_path_and_alias_witness :
  database.GetDatabase (R := MapRange_default)
    (database.scan (R := MapRange_default) twoFiles
       (database.NewDiscovery [sourceA; sourceB])).1 "/data/a.db" = Some databaseA.
Proof.
  apply (proj1 (proj2 (snapshot_lookup_by_path_and_alias (R := MapRange_default)
                         twoFiles (database.NewDiscovery [sourceA; sourceB])))
           "/data/a.db" databaseA).
  vm_compute. reflexivity.
Defined.

(** ** The events of a scan *)

Section ScanEvents.
Import database.
Context {R : MapRange}.

Lemma elem_of_notIn (m other : gmap string DiscoveredDatabase) (db : DiscoveredDatabase) :
  db ∈ notIn m other <-> exists p, m !! p = Some db /\ other !! p = None.
Proof.
  unfold notIn. rewrite list_elem_of_omap. split.
  - intros [[p db'] [Hin Hkeep]]. apply elem_of_rangeMap in Hin. cbn in Hkeep.
    destruct (other !! p) eqn:Hother; [discriminate|].
    injection Hkeep as <-. now exists p.
  - intros [p [Hm Hother]]. exists (p, db). split; [now apply elem_of_rangeMap|].
    cbn. now rewrite Hother.
Qed.

(** The paths reported are paths of the visited entries, in their order. *)
Lemma notIn_paths_sublist (other : gmap string DiscoveredDatabase)
    (l : list (string * DiscoveredDatabase)) :
  Path <$> omap (fun kv => match other !! kv.1 with
                           | None => Some kv.2
                           | Some _ => None
                           end) l
  `sublist_of` Path <$> l.*2.
Proof.
  induction l as [|[p db] l IH]; [constructor|].
  cbn. destruct (other !! p); cbn; now constructor.
Qed.

Lemma keyedByPath_paths (m : gmap string DiscoveredDatabase) :
  keyedByPath m -> Path <$> (map_to_list m).*2 = (map_to_list m).*1.
Proof.
  intros Hkeyed.
  assert (Hall : Forall (fun kv => Path kv.2 = kv.1) (map_to_list m)).
  { apply Forall_forall. intros [p db] Hin. apply elem_of_map_to_list in Hin.
    now apply Hkeyed. }
  induction Hall as [|kv l Hkv _ IH]; [reflexivity|]. cbn. now rewrite Hkv, IH.
Qed.

Lemma NoDup_notIn_paths (m other : gmap string DiscoveredDatabase) :
  keyedByPath m -> NoDup (Path <$> notIn m other).
Proof.
  intros Hkeyed. eapply sublist_NoDup; [|apply notIn_paths_sublist].
  rewrite rangeMap_perm, (keyedByPath_paths m Hkeyed).
  apply NoDup_fst_map_to_list.
Qed.

Lemma notIn_paths (m other : gmap string DiscoveredDatabase) :
  keyedByPath m ->
  (list_to_set (Path <$> notIn m other) : gset string) = dom m ∖ dom other.
Proof.
  intros Hkeyed. apply set_eq. intros p.
  rewrite elem_of_list_to_set, list_elem_of_fmap, elem_of_difference, !elem_of_dom. split.
  - intros [db [-> Hin]]. apply elem_of_notIn in Hin as [p [Hm Hother]].
    rewrite (Hkeyed p db Hm). split; [now exists db|].
    rewrite Hother. now intros [? ?].
  - intros [[db Hm] Hother]. exists db. split; [symmetry; now apply Hkeyed|].
    apply elem_of_notIn. exists p. split; [exact Hm|].
    destruct (other !! p) eqn:Hp; [|reflexivity]. destruct Hother. now eexists.
Qed.

Lemma notIn_nil (m other : gmap string DiscoveredDatabase) :
  keyedByPath m -> notIn m other = [] <-> dom m ⊆ dom other.
Proof.
  intros Hkeyed. pose proof (notIn_paths m other Hkeyed) as Hpaths. split.
  - intros Hnil p Hp. rewrite Hnil in Hpaths.
    destruct (decide (p ∈ dom other)) as [Hin|Hnot]; [exact Hin|].
    assert (Hempty : p ∈ dom m ∖ dom other) by now apply elem_of_difference.
    rewrite <- Hpaths in Hempty. apply elem_of_list_to_set in Hempty. inversion Hempty.
  - intros Hsub. destruct (notIn m other) as [|db l] eqn:Hl; [reflexivity|].
    assert (Hin : Path db ∈ dom m ∖ dom other).
    { rewrite <- Hpaths. apply elem_of_list_to_set. now left. }
    apply elem_of_difference in Hin as [Hin Hnot]. destruct Hnot. now apply Hsub.
Qed.

Lemma scan_emission (discoverSource : SourceDiscovery) (d : Discovery) :
  (scan discoverSource d).2
  = let added := notIn (databases (scan discoverSource d).1) (databases d) in
    let removed := notIn (databases d) (databases (scan discoverSource d).1) in
    match added, removed with
    | [], [] => None
    | _, _ => Some (added, removed)
    end.
Proof.
  cbn. destruct (notIn _ (databases d)), (notIn (databases d) _); reflexivity.
Qed.

(** C9.  Take a snapshot keyed by path (the empty one of [NewDiscovery], or
    the one of an earlier scan) and scan again.  When a pair [(added,
    removed)] is emitted, [added] holds exactly the databases whose path is
    in the new snapshot and not in the old one, [removed] exactly those whose
    path is in the old snapshot and not in the new one, each path once, and
    their paths together are the symmetric difference of the two sets of
    paths; nothing is emitted exactly when the two sets of paths are equal. *)
Theorem scan_emits_the_symmetric_difference
    (discoverSource : SourceDiscovery) (d : Discovery) :
  keyedByPath (databases d) ->
  let old := databases d in
  let new := databases (scan discoverSource d).1 in
  (forall added removed,
      (scan discoverSource d).2 = Some (added, removed) ->
      (forall db, db ∈ added <-> exists p, new !! p = Some db /\ old !! p = None)
      /\ (forall db, db ∈ removed <-> exists p, old !! p = Some db /\ new !! p = None)
      /\ NoDup (Path <$> added) /\ NoDup (Path <$> removed)
      /\ (list_to_set (Path <$> added) : gset string) = dom new ∖ dom old
      /\ (list_to_set (Path <$> removed) : gset string) = dom old ∖ dom new
      /\ (list_to_set (Path <$> (added ++ removed)%list) : gset string)
         = (dom new ∖ dom old) ∪ (dom old ∖ dom new))
  /\ ((scan discoverSource d).2 = None <-> dom new = dom old).
Proof.
  intros Hold old new.
  pose proof (scan_keyedByPath discoverSource d) as Hnew. fold new in Hnew.
  pose proof (scan_emission discoverSource d) as Hemit. fold new old in Hemit. cbn zeta in Hemit.
  split.
  - intros added removed Hsome.
    assert (added = notIn new old /\ removed = notIn old new) as [-> ->].
    { rewrite Hemit in Hsome.
      destruct (notIn new old), (notIn old new); try discriminate;
        injection Hsome as <- <-; now split. }
    split; [intros db; apply elem_of_notIn|].
    split; [intros db; apply elem_of_notIn|].
    split; [now apply NoDup_notIn_paths|].
    split; [now apply NoDup_notIn_paths|].
    split; [now apply notIn_paths|].
    split; [now apply notIn_paths|].
    rewrite fmap_app, list_to_set_app_L.
    now rewrite (notIn_paths new old Hnew), (notIn_paths old new Hold).
  - rewrite Hemit.
    pose proof (notIn_nil new old Hnew) as Hadded.
    pose proof (notIn_nil old new Hold) as Hremoved.
    split.
    + intros Hnone.
      destruct (notIn new old), (notIn old new); try discriminate.
      apply set_eq. intros p. split; [now apply Hadded | now apply Hremoved].
    + intros Hdom.
      rewrite (proj2 Hadded), (proj2 Hremoved); [reflexivity | | ]; now rewrite Hdom.
Qed.

End ScanEvents.

Lemma scan_emits_the_symmetric_difference_witness :
  (database.scan (R := MapRange_default) twoFiles
     (database.NewDiscovery [sourceA; sourceB])).2 = Some ([databaseB; databaseA], [])
  /\ (list_to_set (database.Path <$> [databaseB; databaseA]) : gset string)
     = dom (database.databases
              (database.scan (R := MapRange_default) twoFiles
                 (database.NewDiscovery [sourceA; sourceB])).1) ∖ dom (∅ : gmap string database.DiscoveredDatabase).
Proof.
  assert (Hemit : (database.scan (R := MapRange_default) twoFiles
                     (database.NewDiscovery [sourceA; sourceB])).2
                  = Some ([databaseB; databaseA], [])) by (vm_compute; reflexivity).
  split; [exact Hemit|].
  pose proof (scan_emits_the_symmetric_difference (R := MapRange_default) twoFiles
                (database.NewDiscovery [sourceA; sourceB]) keyedByPath_empty) as [Hsome _].
  exact (proj1 (proj2 (proj2 (proj2 (proj2 (Hsome _ _ Hemit)))))).
Defined.

(** ** Executing a query *)

Section Execute.
Import database.
Context {L : GoLib} {R : MapRange} {E : Engine}.

Lemma ExecuteQuery_not_found (m : Manager) (trace : list Event) (pathOrAlias : string)
    (user : option UserInfo) (sessionID query : string) (now : Z) :
  GetDatabase (discovery m) pathOrAlias = None ->
  ExecuteQuery m trace pathOrAlias user sessionID query now
  = ((None, Some (NotFoundError pathOrAlias)), m, trace).
Proof. intros Hnone. unfold ExecuteQuery. now rewrite Hnone. Qed.

Lemma ExecuteQuery_write_denied (m : Manager) (trace : list Event) (pathOrAlias : string)
    (user : option UserInfo) (sessionID query : string) (now : Z) :
  is_Some (GetDatabase (discovery m) pathOrAlias) ->
  isReadOnlyQuery query = false ->
  CanWrite (GetAccessLevel m user pathOrAlias) = false ->
  ExecuteQuery m trace pathOrAlias user sessionID query now
  = ((None, Some WriteDeniedError), m, trace).
Proof.
  intros [db Hdb] Hwriting Hlevel. unfold ExecuteQuery.
  now rewrite Hdb, Hwriting, Hlevel.
Qed.

(** C1.  [ExecuteQuery] (1) on a path or alias that resolves to no
    discovered database returns the not-found error; (2) on a database that
    resolves, for a statement classified as writing and a user whose level
    on it does not allow writing, returns the write-permission error.  In
    both cases the manager (its connections and locks) and the trace of
    engine contacts are as before: no connection was opened and the engine
    was not touched. *)
Theorem ExecuteQuery_denies_before_the_engine
    (m : Manager) (trace : list Event) (pathOrAlias : string)
    (user : option UserInfo) (sessionID query : string) (now : Z) :
  (GetDatabase (discovery m) pathOrAlias = None ->
     ExecuteQuery m trace pathOrAlias user sessionID query now
     = ((None, Some (NotFoundError pathOrAlias)), m, trace))
  /\ (is_Some (GetDatabase (discovery m) pathOrAlias) ->
      classify query = writing ->
      CanWrite (GetAccessLevel m user pathOrAlias) = false ->
      ExecuteQuery m trace pathOrAlias user sessionID query now
      = ((None, Some WriteDeniedError), m, trace)).
Proof.
  split; [apply ExecuteQuery_not_found|].
  intros Hdb Hclass Hlevel. apply ExecuteQuery_write_denied; [exact Hdb | | exact Hlevel].
  unfold classify in Hclass. now destruct (isReadOnlyQuery query).
Qed.

End Execute.

Lemma ExecuteQuery_denies_before_the_engine_witness :
  database.ExecuteQuery (L := Examples.lib) (R := MapRange_default) (E := Examples.engine)
    testManager [] "nonexistent" (Some (Examples.user "admin" true false)) "" "SELECT 1" 0
  = ((None, Some (database.NotFoundError "nonexistent")), testManager, [])
  /\ database.ExecuteQuery (L := Examples.lib) (R := MapRange_default) (E := Examples.engine)
       testManager [] "test" (Some (Examples.user "anon" false true)) ""
       "INSERT INTO users (name) VALUES ('x')" 0
     = ((None, Some database.WriteDeniedError), testManager, []).
Proof.
  split.
  - apply (proj1 (ExecuteQuery_denies_before_the_engine (L := Examples.lib)
                    (R := MapRange_default) (E := Examples.engine)
                    testManager [] "nonexistent" (Some (Examples.user "admin" true false))
                    "" "SELECT 1" 0)).
    vm_compute. reflexivity.
  - apply (proj2 (ExecuteQuery_denies_before_the_engine (L := Examples.lib)
                    (R := MapRange_default) (E := Examples.engine)
                    testManager [] "test" (Some (Examples.user "anon" false true))
                    "" "INSERT INTO users (name) VALUES ('x')" 0)).
    + vm_compute. eexists. reflexivity.
    + vm_compute. reflexivity.
    + vm_compute. reflexivity.
Defined.

(** ** The delete command *)

Section DeleteCommand.
Context {L : GoLib} {R : MapRange} {E : database.Engine}.

Lemma HasFlag_not_given (ctx : cli.CommandContext) (name : string) :
  ~ flagGiven (cli.Args ctx) name -> cli.HasFlag ctx name = false.
Proof.
  intros Hnot. unfold cli.HasFlag.
  destruct (existsb _ (cli.Args ctx)) eqn:Hex; [|reflexivity].
  apply existsb_exists in Hex as [arg [Hin Heq]]. apply list_elem_of_In in Hin.
  destruct Hnot. apply orb_true_iff in Heq as [Heq | Heq];
    apply String.eqb_eq in Heq; subst arg; [now left | now right].
Qed.

Lemma GetFlag_not_given (ctx : cli.CommandContext) (name : string) :
  ~ valueGiven (cli.Args ctx) name -> cli.GetFlag ctx name = "".
Proof.
  unfold cli.GetFlag, valueGiven.
  induction (cli.Args ctx) as [|arg args IH]; intros Hnot; [reflexivity|].
  cbn [cli.flagValue].
  destruct (String.prefix ("--" ++ name ++ "=") arg) eqn:Hlong.
  { destruct Hnot. exists arg. split; [now left | now left]. }
  destruct (String.prefix ("-" ++ name ++ "=") arg) eqn:Hshort.
  { destruct Hnot. exists arg. split; [now left | now right]. }
  apply IH. intros (arg' & Hin & Hprefix). apply Hnot. exists arg'. split; [now right | exact Hprefix].
Qed.

(** C5.  When neither [--confirm] nor [--force] is among the arguments, or
    no argument gives [--where=] a value, or the value [GetFlag] reads for it
    is empty, the delete command ends with exit code 1, the manager
    unchanged (no connection opened) and the trace of engine contacts
    unchanged (no statement issued, nothing audited). *)
Theorem cmdDelete_fails_closed
    (h : cli.Handler) (ctx : cli.CommandContext) (m : database.Manager)
    (trace : list database.Event) :
  (~ flagGiven (cli.Args ctx) "confirm" /\ ~ flagGiven (cli.Args ctx) "force")
  \/ ~ valueGiven (cli.Args ctx) "where"
  \/ cli.GetFlag ctx "where" = "" ->
  cli.exitCode (cli.cmdDelete h ctx m trace).1.1 = 1
  /\ (cli.cmdDelete h ctx m trace).1.2 = m
  /\ (cli.cmdDelete h ctx m trace).2 = trace.
Proof.
  intros Hguard.
  assert (Hcode : (cli.HasFlag ctx "confirm" = false /\ cli.HasFlag ctx "force" = false)
                  \/ cli.GetFlag ctx "where" = "").
  { destruct Hguard as [[Hconfirm Hforce] | [Habsent | Hempty]].
    - left. split; now apply HasFlag_not_given.
    - right. now apply GetFlag_not_given.
    - now right. }
  clear Hguard. unfold cli.cmdDelete.
  destruct (cli.GetPositionalArgs ctx) as [|dbName [|tableName rest]];
    [now cbn | now cbn |].
  unfold cli.RequireWrite.
  destruct (negb (CanWrite (database.GetAccessLevel m (cli.User ctx) dbName)));
    [now cbn|].
  destruct Hcode as [[Hconfirm Hforce] | Hwhere].
  - rewrite Hconfirm, Hforce. now cbn.
  - destruct (negb (cli.HasFlag ctx "confirm") && negb (cli.HasFlag ctx "force"));
      [now cbn|].
    rewrite Hwhere. now cbn.
Qed.

End DeleteCommand.

Lemma cmdDelete_fails_closed_witness :
  let admin := Some (Examples.user "admin" true false) in
  let h := {| cli.historyStore := true; cli.version := "dev" |} in
  (cli.cmdDelete (L := Examples.lib) (R := MapRange_default) (E := Examples.engine)
     h (commandContext admin ["test"; "users"; "--where=id=1"]) testManager []).2 = []
  /\ (cli.cmdDelete (L := Examples.lib) (R := MapRange_default) (E := Examples.engine)
        h (commandContext admin ["test"; "users"; "--confirm"; "--where="]) testManager []).2 = [].
Proof.
  intros admin h. split.
  - apply (cmdDelete_fails_closed (L := Examples.lib) (R := MapRange_default)
             (E := Examples.engine) h
             (commandContext admin ["test"; "users"; "--where=id=1"]) testManager []).
    left. unfold flagGiven. split; apply (bool_decide_unpack _); vm_compute; exact I.
  - apply (cmdDelete_fails_closed (L := Examples.lib) (R := MapRange_default)
             (E := Examples.engine) h
             (commandContext admin ["test"; "users"; "--confirm"; "--where="]) testManager []).
    right. right. vm_compute. reflexivity.
Defined.

(** With both guards present the command reaches the engine: the statement
    is issued with the table name quoted, and the deletion is audited. *)
Example cmdDelete_reaches_the_engine :
  (cli.cmdDelete (L := Examples.lib) (R := MapRange_default) (E := Examples.engine)
     {| cli.historyStore := true; cli.version := "dev" |}
     (commandContext (Some (Examples.user "admin" true false))
        ["test"; "users"; "--where=id=1"; "--confirm"]) testManager []).2
  = [database.EvOpen "/data/users.db" "rwc" 5000;
     database.EvExec {| database.Connection_Path := "/data/users.db";
                        database.Connection_ReadOnly := false |}
       ("DELETE FROM " ++ String dquote ("users" ++ String dquote " WHERE id=1")) [];
     database.EvAudit "" "DELETE" "test" "users" [("where", "id=1")]].
Proof. vm_compute. reflexivity. Qed.

(** * Further properties of the code *)

(** ** Releasing locks *)

Section Releasing.
Import database.

Lemma LockManager_eta (lm : LockManager) : {| locks := locks lm |} = lm.
Proof. now destruct lm. Qed.

Lemma Unlock_after_TryLock_free (lm : LockManager) (dbPath holder sessionID : string) (now : Z) :
  locks lm !! dbPath = None ->
  Unlock (TryLock lm dbPath holder sessionID now).2 dbPath sessionID = lm.
Proof.
  intros Hfree. rewrite (TryLock_free lm dbPath holder sessionID now Hfree).
  unfold Unlock. cbn. rewrite lookup_insert_eq. cbn. rewrite String.eqb_refl.
  rewrite (delete_insert_id _ _ _ Hfree). apply LockManager_eta.
Qed.

Lemma Unlock_after_TryLock_reentrant (lm : LockManager) (dbPath holder sessionID : string)
    (now : Z) (info : LockInfo) :
  locks lm !! dbPath = Some info -> SessionID info = sessionID ->
  locks (Unlock (TryLock lm dbPath holder sessionID now).2 dbPath sessionID) !! dbPath = None.
Proof.
  intros Hinfo Hsame.
  rewrite (TryLock_reentrant lm dbPath holder sessionID now info Hinfo Hsame).
  unfold Unlock. cbn. rewrite Hinfo, (proj2 (String.eqb_eq _ _) Hsame). cbn.
  apply lookup_delete_eq.
Qed.

(** X1.  Taking a free lock and unlocking it with the same session gives
    back the lock table as it was.  Taking a lock the session already holds
    does not nest: the one [Unlock] that follows leaves the path free. *)
Theorem TryLock_then_Unlock (lm : LockManager) (dbPath holder sessionID : string) (now : Z) :
  (locks lm !! dbPath = None ->
     Unlock (TryLock lm dbPath holder sessionID now).2 dbPath sessionID = lm)
  /\ (forall info, locks lm !! dbPath = Some info -> SessionID info = sessionID ->
        locks (Unlock (TryLock lm dbPath holder sessionID now).2 dbPath sessionID) !! dbPath
        = None).
Proof.
  split.
  - apply Unlock_after_TryLock_free.
  - intros info. apply Unlock_after_TryLock_reentrant.
Qed.

(** X2.  Only the holder releases a lock: after [Unlock(dbPath, sessionID)]
    the path still has an entry exactly when it had one of another session,
    and that entry is the same; every other path is untouched. *)
Theorem Unlock_releases_only_the_holder (lm : LockManager) (dbPath sessionID : string) :
  (forall info, locks (Unlock lm dbPath sessionID) !! dbPath = Some info
                <-> locks lm !! dbPath = Some info /\ SessionID info <> sessionID)
  /\ (forall other, other <> dbPath ->
        locks (Unlock lm dbPath sessionID) !! other = locks lm !! other).
Proof.
  unfold Unlock. destruct (locks lm !! dbPath) as [held|] eqn:Hheld.
  - destruct (String.eqb_spec (SessionID held) sessionID) as [Hsame|Hother]; cbn.
    + split.
      * intros info. rewrite lookup_delete_eq. split; [discriminate|].
        intros [[= <-] Hne]. contradiction.
      * intros other Hne. now apply lookup_delete_ne.
    + split; [|reflexivity]. intros info. rewrite Hheld. split.
      * intros [= <-]. now split.
      * now intros [? _].
  - split; [|reflexivity]. intros info. rewrite Hheld. split; [discriminate|now intros [? _]].
Qed.

(** X3.  [ReleaseAllForSession] removes every lock of the session and no
    other: an entry is in the table afterwards exactly when it was there
    before and belongs to another session. *)
Theorem ReleaseAllForSession_removes_exactly_the_session
    (lm : LockManager) (sessionID dbPath : string) (info : LockInfo) :
  locks (ReleaseAllForSession lm sessionID) !! dbPath = Some info
  <-> locks lm !! dbPath = Some info /\ SessionID info <> sessionID.
Proof.
  unfold ReleaseAllForSession. cbn. rewrite map_lookup_filter_Some. cbn.
  rewrite negb_true_iff, String.eqb_neq. reflexivity.
Qed.

(** X4.  [WithWriteLock] (1) on a path another session holds does not run
    the closure and returns the lock error with the holder and time of the
    existing entry; (2) on a free path runs the closure with the lock held
    and, when the closure leaves the lock table alone, gives the table back as
    it was, whether the closure fails or not. *)
Theorem WithWriteLock_outcomes {S Err : Type} (lm : LockManager)
    (dbPath holder sessionID : string) (now : Z)
    (fn : LockManager -> S -> option Err * LockManager * S) (st : S) :
  (forall info, locks lm !! dbPath = Some info -> SessionID info <> sessionID ->
     WithWriteLock lm dbPath holder sessionID now fn st
     = (Some (inl {| LockError_Database := dbPath; LockError_HeldBy := HeldBy info;
                     LockError_Since := Since info |}), lm, st))
  /\ (locks lm !! dbPath = None ->
      let held := (TryLock lm dbPath holder sessionID now).2 in
      locks held !! dbPath
      = Some {| HeldBy := holder; SessionID := sessionID; Since := now |}
      /\ ((fn held st).1.2 = held ->
          WithWriteLock lm dbPath holder sessionID now fn st
          = (inr <$> (fn held st).1.1, lm, (fn held st).2))).
Proof.
  split.
  - intros info Hinfo Hother. unfold WithWriteLock.
    now rewrite (TryLock_held lm dbPath holder sessionID now info Hinfo Hother).
  - intros Hfree held. split.
    + unfold held. rewrite (TryLock_free lm dbPath holder sessionID now Hfree). cbn.
      apply lookup_insert_eq.
    + intros Hkept. unfold WithWriteLock.
      pose proof (Unlock_after_TryLock_free lm dbPath holder sessionID now Hfree) as Hback.
      fold held in Hback.
      assert (Hnil : (TryLock lm dbPath holder sessionID now).1 = None)
        by now rewrite (TryLock_free lm dbPath holder sessionID now Hfree).
      destruct (TryLock lm dbPath holder sessionID now) as [err lm1] eqn:Htry.
      cbn in Hnil, held. subst err. subst held.
      destruct (fn lm1 st) as [[err lm2] st'] eqn:Hfn. cbn in *. subst lm2.
      now rewrite Hback.
Qed.

End Releasing.

Lemma TryLock_then_Unlock_witness :
  database.Unlock (database.TryLock database.NewLockManager "/data/a.db" "bob" "s2" 1500).2
    "/data/a.db" "s2" = database.NewLockManager.
Proof.
  apply (proj1 (TryLock_then_Unlock database.NewLockManager "/data/a.db" "bob" "s2" 1500)).
  apply lookup_empty.
Defined.

Lemma WithWriteLock_outcomes_witness :
  database.WithWriteLock (S := nat) (Err := string) database.NewLockManager
    "/data/a.db" "bob" "s2" 1500 (fun lm n => (Some "failed", lm, Datatypes.S n)) 0%nat
  = (Some (inr "failed"), database.NewLockManager, 1%nat).
Proof.
  apply (proj2 (proj2 (WithWriteLock_outcomes (S := nat) (Err := string)
                         database.NewLockManager "/data/a.db" "bob" "s2" 1500
                         (fun lm n => (Some "failed", lm, Datatypes.S n)) 0%nat)
                  (lookup_empty _))).
  reflexivity.
Defined.

(** ** Substring search *)

Section Substrings.
Import database.

Lemma append_cons (c : ascii) (a b : string) : String c a ++ b = String c (a ++ b).
Proof. reflexivity. Qed.

Lemma append_empty_l (s : string) : EmptyString ++ s = s.
Proof. reflexivity. Qed.

Lemma append_empty_r (s : string) : s ++ EmptyString = s.
Proof. induction s as [|c s IH]; [reflexivity|]. now rewrite append_cons, IH. Qed.

Lemma length_append (a b : string) :
  String.length (a ++ b) = (String.length a + String.length b)%nat.
Proof. induction a as [|c a IH]; [reflexivity|]. rewrite append_cons. cbn. now rewrite IH. Qed.

(** The first [k] bytes of a string that has them are a prefix of it. *)
Lemma substring_prefix (s : string) (k : nat) :
  (k <= String.length s)%nat -> exists post, s = String.substring 0 k s ++ post.
Proof.
  revert s. induction k as [|k IH]; intros s Hk.
  - exists s. now destruct s.
  - destruct s as [|c s]; [cbn in Hk; lia|].
    destruct (IH s) as [post Hpost]; [cbn in Hk; lia|].
    exists post. cbn [String.substring]. rewrite append_cons. now rewrite <- Hpost.
Qed.

Lemma substring_inside (s : string) (i k : nat) :
  (i + k <= String.length s)%nat ->
  exists pre post, s = pre ++ String.substring i k s ++ post /\ String.length pre = i.
Proof.
  revert s. induction i as [|i IH]; intros s Hik.
  - destruct (substring_prefix s k) as [post Hpost]; [lia|].
    exists EmptyString, post. split; [exact Hpost | reflexivity].
  - destruct s as [|c s]; [cbn in Hik; lia|].
    destruct (IH s) as (pre & post & Hs & Hpre); [cbn in Hik; lia|].
    exists (String c pre), post. split; [|cbn; now rewrite Hpre].
    rewrite append_cons. cbn [String.substring]. now rewrite <- Hs.
Qed.

Lemma substring_of_append (pre sub post : string) :
  String.substring (String.length pre) (String.length sub) (pre ++ sub ++ post) = sub.
Proof.
  induction pre as [|c pre IH]; [|rewrite append_cons; exact IH].
  rewrite append_empty_l. cbn [String.length].
  induction sub as [|c sub IH]; [now destruct post|].
  rewrite append_cons. cbn. now rewrite IH.
Qed.

(** [containsAt] finds the needle at some index of the loop. *)
Lemma containsAt_true (s substr : string) :
  containsAt s substr = true <->
  exists i : nat, (i + String.length substr <= String.length s)%nat
                  /\ String.substring i (String.length substr) s = substr.
Proof.
  unfold containsAt. rewrite existsb_exists. unfold slice, len. split.
  - intros [i [Hin Heq]]. apply list_elem_of_In, elem_of_seqZ in Hin.
    apply String.eqb_eq in Heq.
    replace (Z.to_nat (i + Z.of_nat (String.length substr) - i))
      with (String.length substr) in Heq by lia.
    exists (Z.to_nat i). split; [lia | exact Heq].
  - intros [i [Hi Heq]]. exists (Z.of_nat i). split.
    + apply list_elem_of_In, elem_of_seqZ. lia.
    + apply String.eqb_eq.
      replace (Z.to_nat (Z.of_nat i + Z.of_nat (String.length substr) - Z.of_nat i))
        with (String.length substr) by lia.
      now rewrite Nat2Z.id.
Qed.

(** [contains] decides whether the needle occurs in the string. *)
Lemma contains_true (s substr : string) :
  contains s substr = true <-> exists pre post, s = pre ++ substr ++ post.
Proof.
  unfold contains, len. split.
  - intros Hc. apply andb_true_iff in Hc as [Hlen Hc]. apply Z.leb_le in Hlen.
    apply orb_true_iff in Hc as [Heq | Hat].
    + apply String.eqb_eq in Heq. subst substr.
      exists EmptyString, EmptyString. now rewrite append_empty_l, append_empty_r.
    + apply andb_true_iff in Hat as [_ Hat].
      apply containsAt_true in Hat as (i & Hi & Hsub).
      destruct (substring_inside s i (String.length substr) Hi) as (pre & post & Hs & _).
      exists pre, post. now rewrite Hsub in Hs.
  - intros (pre & post & Hs).
    assert (Hlen : (String.length pre + String.length substr <= String.length s)%nat).
    { rewrite Hs, !length_append. lia. }
    apply andb_true_iff. split; [apply Z.leb_le; lia|].
    apply orb_true_iff.
    destruct (String.length s) as [|n] eqn:Hn.
    + left. apply String.eqb_eq.
      destruct s; [|discriminate]. destruct substr; [reflexivity|cbn in Hlen; lia].
    + right. apply andb_true_iff. split; [apply Z.ltb_lt; lia|].
      apply containsAt_true. exists (String.length pre). split; [lia|].
      rewrite Hs. apply substring_of_append.
Qed.

(** X5.  [IsWALLockError] is false for a nil error and, for an error, true
    exactly when its text contains "database is locked", "SQLITE_BUSY" or
    "SQLITE_LOCKED" somewhere, in this spelling. *)
Theorem IsWALLockError_detects_the_markers (err : option string) :
  IsWALLockError err = true <->
  exists errStr marker pre post,
    err = Some errStr
    /\ marker ∈ ["database is locked"; "SQLITE_BUSY"; "SQLITE_LOCKED"]
    /\ errStr = pre ++ marker ++ post.
Proof.
  destruct err as [errStr|]; cbn [IsWALLockError].
  - rewrite !orb_true_iff, !contains_true. split.
    + intros [[(pre & post & Hs) | (pre & post & Hs)] | (pre & post & Hs)].
      * exists errStr, "database is locked", pre, post.
        split; [reflexivity|]. split; [|exact Hs]. now left.
      * exists errStr, "SQLITE_BUSY", pre, post.
        split; [reflexivity|]. split; [|exact Hs]. right. now left.
      * exists errStr, "SQLITE_LOCKED", pre, post.
        split; [reflexivity|]. split; [|exact Hs]. right. right. now left.
    + intros (errStr' & marker & pre & post & [= <-] & Hin & Hs).
      apply list_elem_of_In in Hin. cbn in Hin.
      destruct Hin as [<- | [<- | [<- | []]]]; [left; left | left; right | right];
        now exists pre, post.
  - split; [discriminate|]. now intros (? & ? & ? & ? & ? & _).
Qed.

End Substrings.

(** The markers are found inside a longer text; other spellings are not. *)
Example IsWALLockError_examples :
  database.IsWALLockError (Some "exec failed: database is locked (5)") = true
  /\ database.IsWALLockError (Some "SQLITE_BUSY") = true
  /\ database.IsWALLockError (Some "Database Is Locked") = false
  /\ database.IsWALLockError (Some "") = false.
Proof. vm_compute. repeat split. Qed.

(** ** Connections of the manager *)

Section Connections.
Import database.
Context {L : GoLib} {R : MapRange} {E : Engine}.



(** [OpenConnection] changes nothing of the manager but the connections. *)
Lemma OpenConnection_keeps (m : Manager) (trace : list Event) (pathOrAlias : string)
    (user : option UserInfo) :
  discovery (OpenConnection m trace pathOrAlias user).1.2 = discovery m
  /\ lockManager (OpenConnection m trace pathOrAlias user).1.2 = lockManager m
  /\ resolver (OpenConnection m trace pathOrAlias user).1.2 = resolver m.
Proof.
  unfold OpenConnection.
  destruct (GetDatabase (discovery m) pathOrAlias) as [db|]; [|now cbn].
  destruct (negb (CanRead (GetAccessLevel m user pathOrAlias))); [now cbn|].
  destruct (connections m !! Path db); [now cbn|].
  destruct (Open trace (Path db) _) as [[conn|msg] trace']; now cbn.
Qed.





End Connections.



(** ** The write lock around a query *)

Section QueryLock.
Import database.
Context {L : GoLib} {R : MapRange} {E : Engine}.

Lemma OpenConnection_lockManager (m : Manager) (trace : list Event) (pathOrAlias : string)
    (user : option UserInfo) (r : Connection + error) (m1 : Manager) (trace1 : list Event) :
  OpenConnection m trace pathOrAlias user = (r, m1, trace1) ->
  lockManager m1 = lockManager m.
Proof.
  intros Hopen. pose proof (OpenConnection_keeps m trace pathOrAlias user) as (_ & Hlm & _).
  now rewrite Hopen in Hlm.
Qed.



(** X9.  [ExecuteQuery] gives the lock table back as it found it, on every
    way out, when the statement is classified read-only (the lock manager is
    then not consulted at all, so a read proceeds while another session holds
    the lock) or when the database's lock was free. *)
Theorem ExecuteQuery_leaves_the_lock_table
    (m : Manager) (trace : list Event) (pathOrAlias : string) (user : option UserInfo)
    (sessionID query : string) (now : Z) (db : DiscoveredDatabase) :
  GetDatabase (discovery m) pathOrAlias = Some db ->
  isReadOnlyQuery query = true \/ locks (lockManager m) !! Path db = None ->
  lockManager (ExecuteQuery m trace pathOrAlias user sessionID query now).1.2 = lockManager m.
Proof.
  intros Hdb Hcase. unfold ExecuteQuery. rewrite Hdb.
  destruct (negb (isReadOnlyQuery query) && negb (CanWrite (GetAccessLevel m user pathOrAlias)));
    [reflexivity|].
  destruct (OpenConnection m trace pathOrAlias user) as [[[conn|err] m1] trace1] eqn:Hopen;
    pose proof (OpenConnection_lockManager _ _ _ _ _ _ _ Hopen) as Hlm; [|exact Hlm].
  destruct (isReadOnlyQuery query) eqn:Hro; cbn [negb].
  - destruct (Query trace1 conn query []) as [[result err] trace2].
    destruct err; exact Hlm.
  - destruct Hcase as [Hro' | Hfree]; [discriminate|].
    rewrite <- Hlm in Hfree.
    pose proof (Unlock_after_TryLock_free (lockManager m1) (Path db) (DisplayName user)
                  sessionID now Hfree) as Hback.
    rewrite (TryLock_free _ _ _ _ now Hfree) in Hback |- *. cbn in Hback.
    destruct (Query trace1 conn query []) as [[result err] trace2].
    destruct err; cbn; now rewrite Hback.
Qed.

(** X10.  The lock is not counted.  When the session already holds the
    database's lock and its writing statement gets as far as the engine,
    [ExecuteQuery] releases the lock on its way out: the path is free
    afterwards although the session had taken the lock before the call. *)
Theorem ExecuteQuery_releases_a_lock_the_session_held
    (m : Manager) (trace : list Event) (pathOrAlias : string) (user : option UserInfo)
    (sessionID query : string) (now : Z) (db : DiscoveredDatabase) (info : LockInfo)
    (conn : Connection) (m1 : Manager) (trace1 : list Event) :
  GetDatabase (discovery m) pathOrAlias = Some db ->
  isReadOnlyQuery query = false ->
  CanWrite (GetAccessLevel m user pathOrAlias) = true ->
  OpenConnection m trace pathOrAlias user = (inl conn, m1, trace1) ->
  locks (lockManager m) !! Path db = Some info ->
  SessionID info = sessionID ->
  locks (lockManager (ExecuteQuery m trace pathOrAlias user sessionID query now).1.2) !! Path db
  = None.
Proof.
  intros Hdb Hwriting Hlevel Hopen Hheld Hsame.
  pose proof (OpenConnection_lockManager _ _ _ _ _ _ _ Hopen) as Hlm.
  unfold ExecuteQuery. rewrite Hdb, Hwriting, Hlevel, Hopen. cbn [negb andb].
  rewrite <- Hlm in Hheld.
  pose proof (Unlock_after_TryLock_reentrant (lockManager m1) (Path db) (DisplayName user)
                sessionID now info Hheld Hsame) as Hreleased.
  rewrite (TryLock_reentrant _ _ _ _ now info Hheld Hsame) in Hreleased |- *.
  cbn in Hreleased.
  destruct (Query trace1 conn query []) as [[result err] trace2].
  destruct err; cbn; exact Hreleased.
Qed.

End QueryLock.


Lemma ExecuteQuery_leaves_the_lock_table_witness :
  database.lockManager
    (database.ExecuteQuery (L := Examples.lib) (R := MapRange_default) (E := Examples.engine)
       testManager [] "test" (Some (Examples.user "admin" true false)) "s2"
       "DELETE FROM users" 0).1.2
  = database.lockManager testManager.
Proof.
  apply (ExecuteQuery_leaves_the_lock_table (L := Examples.lib) (R := MapRange_default)
           (E := Examples.engine) testManager [] "test"
           (Some (Examples.user "admin" true false)) "s2" "DELETE FROM users" 0
           (Examples.db "/data/users.db" "test" (Examples.source "/data/users.db" "test"))).
  - vm_compute. reflexivity.
  - right. vm_compute. reflexivity.
Defined.

Lemma ExecuteQuery_releases_a_lock_the_session_held_witness :
  database.locks
    (database.lockManager
       (database.ExecuteQuery (L := Examples.lib) (R := MapRange_default)
          (E := Examples.engine) (heldBy "s2") [] "test"
          (Some (Examples.user "admin" true false)) "s2" "DELETE FROM users" 0).1.2)
    !! "/data/users.db" = None.
Proof.
  pose (opened := database.OpenConnection (L := Examples.lib) (R := MapRange_default)
                    (E := Examples.engine) (heldBy "s2") [] "test"
                    (Some (Examples.user "admin" true false))).
  refine (ExecuteQuery_releases_a_lock_the_session_held (L := Examples.lib)
            (R := MapRange_default) (E := Examples.engine) (heldBy "s2") [] "test"
            (Some (Examples.user "admin" true false)) "s2" "DELETE FROM users" 0
            (Examples.db "/data/users.db" "test" (Examples.source "/data/users.db" "test"))
            {| database.HeldBy := "alice"; database.SessionID := "s2"; database.Since := 1402 |}
            {| database.Connection_Path := "/data/users.db";
               database.Connection_ReadOnly := false |}
            opened.1.2 opened.2 _ _ _ _ _ _).
  - vm_compute. reflexivity.
  - vm_compute. reflexivity.
  - vm_compute. reflexivity.
  - vm_compute. reflexivity.
  - vm_compute. reflexivity.
  - reflexivity.
Defined.

(** ** The listing and the level of one database *)

Section ListingLevels.
Import database.
Context {L : GoLib} {R : MapRange}.

Lemma GetAccessLevel_by_path (m : Manager) (user : option UserInfo) (p : string)
    (db : DiscoveredDatabase) :
  databases (discovery m) !! p = Some db ->
  GetAccessLevel m user p = Resolve (resolver m) user (Path db) (Alias db).
Proof.
  intros Hp. unfold GetAccessLevel. now rewrite (GetDatabase_by_path _ _ _ Hp).
Qed.

(** X11.  In a snapshot keyed by path, [ListDatabases] agrees with
    [GetAccessLevel]: every entry listed can be read and carries the level
    [GetAccessLevel] gives for its path, and a discovered database is listed,
    with its level, exactly when that level allows reading. *)
Theorem ListDatabases_agrees_with_GetAccessLevel (m : Manager) (user : option UserInfo) :
  keyedByPath (databases (discovery m)) ->
  (forall entry, entry ∈ ListDatabases m user ->
     CanRead (AccessLevel entry) = true
     /\ GetAccessLevel m user (DatabaseInfo_Path entry) = AccessLevel entry)
  /\ (forall p db, databases (discovery m) !! p = Some db ->
        listed db (GetAccessLevel m user p) ∈ ListDatabases m user
        <-> CanRead (GetAccessLevel m user p) = true).
Proof.
  intros Hkeyed.
  assert (Hentry : forall entry, entry ∈ ListDatabases m user ->
            CanRead (AccessLevel entry) = true
            /\ GetAccessLevel m user (DatabaseInfo_Path entry) = AccessLevel entry).
  { intros entry Hin. unfold ListDatabases in Hin.
    apply list_elem_of_omap in Hin as (db & Hdb & Hkeep).
    apply elem_of_GetDatabases in Hdb as [p Hp].
    destruct (CanRead (Resolve (resolver m) user (Path db) (Alias db))) eqn:Hread;
      [|discriminate].
    injection Hkeep as <-. cbn. split; [exact Hread|].
    rewrite <- (Hkeyed p db Hp) in Hp. now apply GetAccessLevel_by_path. }
  split; [exact Hentry|].
  intros p db Hp. rewrite (GetAccessLevel_by_path m user p db Hp). split.
  - intros Hin. now destruct (Hentry _ Hin) as [Hread _].
  - intros Hread. unfold ListDatabases. apply list_elem_of_omap. exists db. split.
    + apply elem_of_GetDatabases. now exists p.
    + now rewrite Hread.
Qed.

End ListingLevels.

Lemma ListDatabases_agrees_with_GetAccessLevel_witness :
  listed (Examples.db "/data/users.db" "test" (Examples.source "/data/users.db" "test"))
         ReadOnly
  ∈ database.ListDatabases (L := Examples.lib) (R := MapRange_default) testManager
      (Some (Examples.user "anon" false true)).
Proof.
  assert (Hkeyed : keyedByPath (database.databases (database.discovery testManager))).
  { intros p db Hp. cbn in Hp. apply lookup_singleton_Some in Hp as [<- <-]. reflexivity. }
  apply (proj2 (ListDatabases_agrees_with_GetAccessLevel (L := Examples.lib)
                  (R := MapRange_default) testManager
                  (Some (Examples.user "anon" false true)) Hkeyed)
           "/data/users.db"
           (Examples.db "/data/users.db" "test" (Examples.source "/data/users.db" "test"))).
  - vm_compute. reflexivity.
  - vm_compute. reflexivity.
Defined.

(** ** The order of the resolver's tiers *)

Section Tiers.
Context {L : GoLib}.

Lemma Resolve_not_admin (r : Resolver) (u : UserInfo) (dbPath dbAlias : string) :
  notAdmin r (Some u) ->
  Resolve r (Some u) dbPath dbAlias =
    match
      (if negb (IsAnonymous u) then
         match UserRules r !! Name u with
         | Some rules => returnedUnlessNone (matchRules rules dbPath dbAlias)
         | None => None
         end
       else None)
    with
    | Some level => level
    | None => Resolve r None dbPath dbAlias
    end.
Proof.
  intros [Hflag Hlisted]. unfold Resolve. rewrite Hflag.
  destruct Hlisted as [-> | ->]; [reflexivity|]. now rewrite andb_false_r.
Qed.

(** X12.  For an authenticated user who is not an admin: (1) when the first
    matching rule of the user's own list has a level other than [None], that
    level is the result, whatever the public rules and the anonymous default
    say; (2) when the user has no rule list, or no rule of it matches, or the
    first match has level [None], the result is what a nil user gets. *)
Theorem user_rules_win_or_fall_through (r : Resolver) (u : UserInfo) (dbPath dbAlias : string) :
  IsAdmin u = false -> IsAnonymous u = false -> isListedAdmin r (Name u) = false ->
  (forall rules, UserRules r !! Name u = Some rules ->
     matchRules rules dbPath dbAlias <> LevelNone ->
     Resolve r (Some u) dbPath dbAlias = matchRules rules dbPath dbAlias)
  /\ (UserRules r !! Name u = None
      \/ (exists rules, UserRules r !! Name u = Some rules
                        /\ matchRules rules dbPath dbAlias = LevelNone) ->
      Resolve r (Some u) dbPath dbAlias = Resolve r None dbPath dbAlias).
Proof.
  intros Hflag Hanon Hlisted.
  assert (Hnot : notAdmin r (Some u)) by (split; [exact Hflag | now right]).
  rewrite (Resolve_not_admin r u dbPath dbAlias Hnot), Hanon. cbn [negb]. split.
  - intros rules -> Hlevel. unfold returnedUnlessNone.
    now rewrite bool_decide_eq_false_2.
  - intros [-> | (rules & -> & ->)]; reflexivity.
Qed.

Lemma matchRules_bounded (rules : list Rule) (dbPath dbAlias : string) (bound : Z) :
  0 <= bound ->
  Forall (fun rule => Level_int (Level_ rule) <= bound) rules ->
  Level_int (matchRules rules dbPath dbAlias) <= bound.
Proof.
  intros Hbound Hrules. induction Hrules as [|rule rules Hrule _ IH]; cbn; [exact Hbound|].
  now destruct (matchPattern (Pattern rule) dbPath dbAlias).
Qed.

Lemma Level_int_nonneg (l : Level) : 0 <= Level_int l.
Proof. destruct l; cbn; lia. Qed.

(** X13.  [Resolve] grants no more than is configured: for a user who is
    not an admin, if the anonymous default, every public rule and every rule
    of the user's own list are at most some level, so is the result. *)
Theorem Resolve_grants_no_more_than_configured
    (r : Resolver) (user : option UserInfo) (dbPath dbAlias : string) (bound : Level) :
  notAdmin r user ->
  Level_int (AnonymousAccess r) <= Level_int bound ->
  Forall (fun rule => Level_int (Level_ rule) <= Level_int bound) (PublicRules r) ->
  (forall u rules, user = Some u -> UserRules r !! Name u = Some rules ->
     Forall (fun rule => Level_int (Level_ rule) <= Level_int bound) rules) ->
  Level_int (Resolve r user dbPath dbAlias) <= Level_int bound.
Proof.
  intros Hnot Hdefault Hpublic Huser.
  assert (Hnil : Level_int (Resolve r None dbPath dbAlias) <= Level_int bound).
  { unfold Resolve, returnedUnlessNone.
    pose proof (matchRules_bounded (PublicRules r) dbPath dbAlias (Level_int bound)
                  (Level_int_nonneg bound) Hpublic) as Hrules.
    now destruct (bool_decide (matchRules (PublicRules r) dbPath dbAlias = LevelNone)). }
  destruct user as [u|]; [|exact Hnil].
  rewrite (Resolve_not_admin r u dbPath dbAlias Hnot).
  destruct (negb (IsAnonymous u)); [|exact Hnil].
  destruct (UserRules r !! Name u) as [rules|] eqn:Hrules; [|exact Hnil].
  unfold returnedUnlessNone.
  destruct (bool_decide (matchRules rules dbPath dbAlias = LevelNone)); [exact Hnil|].
  apply matchRules_bounded; [apply Level_int_nonneg | now apply (Huser u rules)].
Qed.

(** X14.  [ListAccessibleDatabases] keeps exactly the entries the user can
    read, in their order, each stamped with its resolved level; applying it
    to its own result changes nothing. *)
Theorem ListAccessibleDatabases_filters_and_is_idempotent
    (r : Resolver) (user : option UserInfo) (databases : list DatabaseInfo) :
  ListAccessibleDatabases r user databases
  = (fun db => {| DatabaseInfo_Path := DatabaseInfo_Path db;
                  DatabaseInfo_Alias := DatabaseInfo_Alias db;
                  DatabaseInfo_AccessLevel :=
                    Resolve r user (DatabaseInfo_Path db) (DatabaseInfo_Alias db) |})
    <$> List.filter (fun db => CanAccess r user (DatabaseInfo_Path db) (DatabaseInfo_Alias db))
                    databases
  /\ ListAccessibleDatabases r user (ListAccessibleDatabases r user databases)
     = ListAccessibleDatabases r user databases.
Proof.
  split.
  - induction databases as [|db dbs IH]; [reflexivity|].
    cbn [ListAccessibleDatabases List.filter]. unfold CanAccess at 1.
    destruct (CanRead (Resolve r user (DatabaseInfo_Path db) (DatabaseInfo_Alias db)));
      [cbn; now rewrite IH | exact IH].
  - induction databases as [|db dbs IH]; [reflexivity|].
    cbn [ListAccessibleDatabases].
    destruct (CanRead (Resolve r user (DatabaseInfo_Path db) (DatabaseInfo_Alias db))) eqn:Hread;
      [|exact IH].
    cbn [ListAccessibleDatabases DatabaseInfo_Path DatabaseInfo_Alias].
    now rewrite Hread, IH.
Qed.

End Tiers.

(** X15.  The capabilities follow the order of the levels: a capability a
    level has, every higher level has; admin implies write, write implies
    read, and download is the same as read. *)
Theorem capabilities_follow_the_level_order (l l' : Level) :
  (Level_int l <= Level_int l' ->
     (CanRead l = true -> CanRead l' = true)
     /\ (CanWrite l = true -> CanWrite l' = true)
     /\ (CanAdmin l = true -> CanAdmin l' = true))
  /\ (CanAdmin l = true -> CanWrite l = true)
  /\ (CanWrite l = true -> CanRead l = true)
  /\ CanDownload l = CanRead l.
Proof.
  split; [|split; [apply CanAdmin_CanWrite | split; [apply CanWrite_CanRead | reflexivity]]].
  unfold CanRead, CanWrite, CanAdmin. intros Hle.
  repeat split; intros Hcan; apply Z.leb_le in Hcan; apply Z.leb_le; lia.
Qed.

Lemma user_rules_win_or_fall_through_witness :
  Resolve (L := Examples.lib) (AddUserRule (AddPublicRule NewResolver "shared" ReadOnly)
                                 "privileged" "shared" ReadWrite)
    (Some (Examples.user "privileged" false false)) "/data/shared.db" "shared" = ReadWrite
  /\ Resolve (L := Examples.lib) (AddPublicRule NewResolver "shared" ReadOnly)
       (Some (Examples.user "someone" false false)) "/data/shared.db" "shared"
     = Resolve (L := Examples.lib) (AddPublicRule NewResolver "shared" ReadOnly)
         None "/data/shared.db" "shared".
Proof.
  split.
  - refine (eq_trans
      (proj1 (user_rules_win_or_fall_through (L := Examples.lib)
                (AddUserRule (AddPublicRule NewResolver "shared" ReadOnly)
                   "privileged" "shared" ReadWrite)
                (Examples.user "privileged" false false) "/data/shared.db" "shared"
                eq_refl eq_refl _)
         [{| Pattern := "shared"; Level_ := ReadWrite |}] _ _) _).
    + vm_compute. reflexivity.
    + vm_compute. reflexivity.
    + vm_compute. discriminate.
    + vm_compute. reflexivity.
  - apply (proj2 (user_rules_win_or_fall_through (L := Examples.lib)
                    (AddPublicRule NewResolver "shared" ReadOnly)
                    (Examples.user "someone" false false) "/data/shared.db" "shared"
                    eq_refl eq_refl eq_refl)).
    left. vm_compute. reflexivity.
Defined.

Lemma Resolve_grants_no_more_than_configured_witness :
  Level_int (Resolve (L := Examples.lib) protectedResolver
               (Some (Examples.user "someone" false false)) "/data/x.db" "x")
  <= Level_int ReadOnly.
Proof.
  apply (Resolve_grants_no_more_than_configured (L := Examples.lib) protectedResolver
           (Some (Examples.user "someone" false false)) "/data/x.db" "x" ReadOnly).
  - split; [reflexivity | right; reflexivity].
  - vm_compute. discriminate.
  - repeat constructor; vm_compute; discriminate.
  - intros u rules [= <-] Hrules. vm_compute in Hrules. discriminate.
Defined.

Lemma capabilities_follow_the_level_order_witness :
  CanWrite Admin = true.
Proof.
  apply (proj1 (proj2 (proj1 (capabilities_follow_the_level_order ReadWrite Admin)
                         ltac:(vm_compute; discriminate)))).
  reflexivity.
Defined.

(** ** Parsing levels *)

Section Levels.
Context {L : GoLib} {T : GoText}.

(** X16.  [ParseLevel] fails closed and inverts [String]: a text that is
    none of the accepted names after trimming and lower-casing parses to
    [None]; and when trimming and lower-casing leave the four names that
    [String] prints as they are, parsing the name of a level gives the
    level. *)
Theorem ParseLevel_fails_closed_and_inverts_String :
  (forall s, ParseLevel s <> LevelNone ->
     ToLower (TrimSpace s) ∈ ["read-only"; "readonly"; "ro"; "read-write"; "readwrite";
                              "rw"; "admin"])
  /\ ((forall l, ToLower (TrimSpace (Level_String l)) = Level_String l) ->
      forall l, ParseLevel (Level_String l) = l).
Proof.
  split.
  - intros s. unfold ParseLevel.
    repeat match goal with
           | |- context [String.eqb ?a ?b] =>
               destruct (String.eqb_spec a b) as [->|?]; cbn [orb]
           end; intros Hlevel; try (now destruct Hlevel);
      repeat first [now left | right].
  - intros Hfix l. unfold ParseLevel. rewrite Hfix. now destruct l.
Qed.

End Levels.

Lemma ParseLevel_fails_closed_and_inverts_String_witness :
  ParseLevel (L := Examples.lib) (T := Examples.text) (Level_String ReadWrite) = ReadWrite
  /\ ParseLevel (L := Examples.lib) (T := Examples.text) "  Read-Only " = ReadOnly
  /\ ParseLevel (L := Examples.lib) (T := Examples.text) "owner" = LevelNone.
Proof.
  split; [|vm_compute; now split].
  apply (proj2 (ParseLevel_fails_closed_and_inverts_String (L := Examples.lib)
                  (T := Examples.text))).
  intros l. destruct l; vm_compute; reflexivity.
Defined.

(** ** Building the resolver from the configuration *)

Section BuildingResolver.
Context {L : GoLib} {T : GoText}.

Lemma rulesOf_AddUserRule (r : Resolver) (name pattern : string) (level : Level) (n : string) :
  rulesOf (AddUserRule r name pattern level) n
  = (rulesOf r n ++ if decide (n = name) then [ {| Pattern := pattern; Level_ := level |} ]
                    else [])%list.
Proof.
  unfold rulesOf, AddUserRule. cbn. destruct (decide (n = name)) as [->|Hne].
  - now rewrite lookup_insert_eq.
  - rewrite lookup_insert_ne by congruence. now rewrite app_nil_r.
Qed.

Lemma addRules_fields (name : string) (rules : list config.AccessRule) (r : Resolver) :
  let r' := foldl (fun resolver rule =>
                     AddUserRule resolver name (config.AccessRule_Pattern rule)
                       (ParseLevel (config.AccessRule_Level rule))) r rules in
  AnonymousAccess r' = AnonymousAccess r
  /\ PublicRules r' = PublicRules r
  /\ Admins r' = Admins r
  /\ forall n, rulesOf r' n
               = (rulesOf r n ++ if decide (n = name)
                                 then config.AccessRule_ToAccessRule <$> rules else [])%list.
Proof.
  revert r. induction rules as [|rule rules IH]; intros r; cbn zeta.
  - repeat split. intros n. destruct (decide (n = name)); cbn; now rewrite app_nil_r.
  - cbn [foldl]. destruct (IH (AddUserRule r name (config.AccessRule_Pattern rule)
                                 (ParseLevel (config.AccessRule_Level rule))))
      as (Ha & Hp & Hadm & Hrules).
    split; [exact Ha|]. split; [exact Hp|]. split; [exact Hadm|].
    intros n. rewrite Hrules, rulesOf_AddUserRule.
    destruct (decide (n = name)); cbn; now rewrite <- app_assoc.
Qed.

Lemma addUser_fields (r : Resolver) (user : config.User) :
  AnonymousAccess (config.addUser r user) = AnonymousAccess r
  /\ PublicRules (config.addUser r user) = PublicRules r
  /\ (forall n, isListedAdmin (config.addUser r user) n
                = isListedAdmin r n
                  || (config.User_Admin user && String.eqb (config.User_Name user) n))
  /\ forall n, rulesOf (config.addUser r user) n
               = (rulesOf r n ++ configuredRules [user] n)%list.
Proof.
  unfold config.addUser.
  destruct (addRules_fields (config.User_Name user) (config.Access user)
              (if config.User_Admin user then AddAdmin r (config.User_Name user) else r))
    as (Ha & Hp & Hadm & Hrules).
  cbn zeta in *. split; [|split; [|split]].
  - rewrite Ha. now destruct (config.User_Admin user).
  - rewrite Hp. now destruct (config.User_Admin user).
  - intros n. unfold isListedAdmin. rewrite Hadm.
    destruct (config.User_Admin user); cbn; [|now rewrite orb_false_r].
    destruct (String.eqb_spec (config.User_Name user) n) as [->|Hne].
    + rewrite lookup_insert_eq. cbn. now rewrite orb_true_r.
    + rewrite lookup_insert_ne by exact Hne. now rewrite orb_false_r.
  - intros n. rewrite Hrules. unfold configuredRules. cbn. rewrite app_nil_r.
    now destruct (config.User_Admin user).
Qed.

Lemma addUsers_fields (users : list config.User) (r : Resolver) :
  AnonymousAccess (foldl config.addUser r users) = AnonymousAccess r
  /\ PublicRules (foldl config.addUser r users) = PublicRules r
  /\ (forall n, isListedAdmin (foldl config.addUser r users) n
                = isListedAdmin r n
                  || existsb (fun user => config.User_Admin user
                                          && String.eqb (config.User_Name user) n) users)
  /\ forall n, rulesOf (foldl config.addUser r users) n
               = (rulesOf r n ++ configuredRules users n)%list.
Proof.
  revert r. induction users as [|user users IH]; intros r.
  - repeat split; intros n; [now rewrite orb_false_r | unfold configuredRules; cbn; now rewrite app_nil_r].
  - cbn [foldl]. destruct (IH (config.addUser r user)) as (Ha & Hp & Hadm & Hrules).
    destruct (addUser_fields r user) as (Ha' & Hp' & Hadm' & Hrules').
    split; [congruence|]. split; [congruence|]. split.
    + intros n. rewrite Hadm, Hadm'. cbn [existsb]. now rewrite orb_assoc.
    + intros n. rewrite Hrules, Hrules'. unfold configuredRules. cbn. rewrite app_nil_r.
      now rewrite <- app_assoc.
Qed.

Lemma addPublic_fields (pubs : list config.PublicDatabase) (r : Resolver) :
  let r' := foldl (fun resolver pub =>
                     AddPublicRule resolver (config.PublicDatabase_Pattern pub)
                       (ParseLevel (config.PublicDatabase_Level pub))) r pubs in
  AnonymousAccess r' = AnonymousAccess r
  /\ PublicRules r' = (PublicRules r ++ (config.PublicDatabase_ToAccessRule <$> pubs))%list
  /\ Admins r' = Admins r
  /\ UserRules r' = UserRules r.
Proof.
  revert r. induction pubs as [|pub pubs IH]; intros r; cbn zeta.
  - repeat split. cbn. now rewrite app_nil_r.
  - cbn [foldl]. destruct (IH (AddPublicRule r (config.PublicDatabase_Pattern pub)
                                 (ParseLevel (config.PublicDatabase_Level pub))))
      as (Ha & Hp & Hadm & Hrules).
    split; [exact Ha|]. split; [|split; [exact Hadm | exact Hrules]].
    rewrite Hp. cbn. now rewrite <- app_assoc.
Qed.

(** X17.  The admins of the built resolver are the users the configuration
    marks as admin: a name is in the admin list exactly when some user entry
    of that name has the admin flag; hence an authenticated user of such a
    name resolves to [Admin] on every database. *)
Theorem BuildResolver_admins (c : config.Config) (name : string) :
  (isListedAdmin (config.BuildResolver c) name = true
   <-> exists user, user ∈ config.Users c /\ config.User_Name user = name
                    /\ config.User_Admin user = true)
  /\ ((exists user, user ∈ config.Users c /\ config.User_Name user = name
                    /\ config.User_Admin user = true) ->
      forall u dbPath dbAlias,
        Name u = name -> IsAnonymous u = false ->
        Resolve (config.BuildResolver c) (Some u) dbPath dbAlias = Admin).
Proof.
  assert (Hiff : isListedAdmin (config.BuildResolver c) name = true
                 <-> exists user, user ∈ config.Users c /\ config.User_Name user = name
                                  /\ config.User_Admin user = true).
  { unfold config.BuildResolver. cbn zeta.
    destruct (addUsers_fields (config.Users c)
                (foldl (fun resolver pub =>
                          AddPublicRule resolver (config.PublicDatabase_Pattern pub)
                            (ParseLevel (config.PublicDatabase_Level pub)))
                   (SetAnonymousAccess NewResolver (ParseLevel (config.AnonymousAccess c)))
                   (config.Public c))) as (_ & _ & Hadm & _).
    rewrite Hadm.
    destruct (addPublic_fields (config.Public c)
                (SetAnonymousAccess NewResolver (ParseLevel (config.AnonymousAccess c))))
      as (_ & _ & Hadm0 & _). cbn zeta in Hadm0.
    unfold isListedAdmin at 1. rewrite Hadm0. cbn. rewrite lookup_empty. cbn.
    rewrite existsb_exists. split.
    - intros (user & Hin & Hflag). apply andb_true_iff in Hflag as [Hflag Hname].
      exists user. split; [now apply list_elem_of_In|]. split; [now apply String.eqb_eq | exact Hflag].
    - intros (user & Hin & Hname & Hflag). exists user. split; [now apply list_elem_of_In|].
      rewrite Hflag. now apply String.eqb_eq. }
  split; [exact Hiff|].
  intros Huser u dbPath dbAlias Hname Hanon. apply Resolve_listed_admin; [exact Hanon|].
  rewrite Hname. now apply Hiff.
Qed.

(** X18.  The built resolver keeps the configuration's rules in their
    order: the anonymous default is the parsed level, the public rules are
    the configured ones in order, and the rule list of a name is made of the
    rules of every user entry of that name, entry after entry. *)
Theorem BuildResolver_rules_in_order (c : config.Config) :
  AnonymousAccess (config.BuildResolver c) = ParseLevel (config.AnonymousAccess c)
  /\ PublicRules (config.BuildResolver c)
     = config.PublicDatabase_ToAccessRule <$> config.Public c
  /\ forall name, default [] (UserRules (config.BuildResolver c) !! name)
                  = configuredRules (config.Users c) name.
Proof.
  unfold config.BuildResolver. cbn zeta.
  destruct (addUsers_fields (config.Users c)
              (foldl (fun resolver pub =>
                        AddPublicRule resolver (config.PublicDatabase_Pattern pub)
                          (ParseLevel (config.PublicDatabase_Level pub)))
                 (SetAnonymousAccess NewResolver (ParseLevel (config.AnonymousAccess c)))
                 (config.Public c))) as (Ha & Hp & _ & Hrules).
  destruct (addPublic_fields (config.Public c)
              (SetAnonymousAccess NewResolver (ParseLevel (config.AnonymousAccess c))))
    as (Ha0 & Hp0 & _ & Hrules0). cbn zeta in Ha0, Hp0, Hrules0.
  split; [now rewrite Ha, Ha0|]. split; [now rewrite Hp, Hp0|].
  intros name. fold (rulesOf (foldl config.addUser
                               (foldl (fun resolver pub =>
                                  AddPublicRule resolver (config.PublicDatabase_Pattern pub)
                                    (ParseLevel (config.PublicDatabase_Level pub)))
                                  (SetAnonymousAccess NewResolver
                                     (ParseLevel (config.AnonymousAccess c)))
                                  (config.Public c)) (config.Users c)) name).
  rewrite Hrules. unfold rulesOf at 1. rewrite Hrules0. cbn. now rewrite lookup_empty.
Qed.

End BuildingResolver.

Lemma BuildResolver_admins_witness :
  Resolve (L := Examples.lib) (config.BuildResolver (L := Examples.lib) (T := Examples.text) testConfig)
    (Some (Examples.user "admin" false false)) "/data/users.db" "test" = Admin.
Proof.
  apply (proj2 (BuildResolver_admins (L := Examples.lib) (T := Examples.text) testConfig "admin")).
  - exists {| config.User_Name := "admin"; config.User_Admin := true; config.PublicKeys := [];
              config.Access := [] |}.
    split; [|split; reflexivity]. right. left.
  - reflexivity.
  - reflexivity.
Defined.

(** ** Scanning again *)

Section Rescan.
Import database.
Context {R : MapRange}.

Lemma notIn_self (m : gmap string DiscoveredDatabase) : notIn m m = [].
Proof.
  unfold notIn.
  assert (Hall : Forall (fun kv => is_Some (m !! kv.1)) (rangeMap m)).
  { apply Forall_forall. intros [p db] Hin. apply elem_of_rangeMap in Hin. now exists db. }
  induction Hall as [|kv l [db Hkv] _ IH]; [reflexivity|].
  cbn. now rewrite Hkv.
Qed.

(** The snapshot of a scan is what inserting everything found, in order,
    into an empty map gives. *)
Lemma scanSources_databases (discoverSource : SourceDiscovery)
    (sources : list config.DatabaseSource)
    (acc : gmap string DiscoveredDatabase * gset string) :
  (foldl (fun acc source =>
            match discoverSource source with
            | None => acc
            | Some (found, watchDirs) =>
                (foldl (fun newDatabases db => <[Path db := db]> newDatabases) acc.1 found,
                 foldl (fun watchPaths dir => {[dir]} ∪ watchPaths) acc.2 watchDirs)
            end) acc sources).1
  = foldl (fun newDatabases db => <[Path db := db]> newDatabases) acc.1
          (allFound discoverSource sources).
Proof.
  revert acc. induction sources as [|source sources IH]; intros acc; [reflexivity|].
  cbn [foldl]. rewrite IH. unfold allFound. cbn [fmap list_fmap concat].
  rewrite foldl_app.
  now destruct (discoverSource source) as [[found watchDirs]|].
Qed.

Lemma lookup_inserted (found : list DiscoveredDatabase) (m : gmap string DiscoveredDatabase)
    (p : string) :
  foldl (fun newDatabases db => <[Path db := db]> newDatabases) m found !! p
  = match last (List.filter (fun db => String.eqb (Path db) p) found) with
    | Some db => Some db
    | None => m !! p
    end.
Proof.
  induction found as [|db found IH] using rev_ind; [reflexivity|].
  rewrite foldl_app, List.filter_app. cbn [foldl List.filter].
  destruct (String.eqb_spec (Path db) p) as [<-|Hne].
  - rewrite last_snoc. apply lookup_insert_eq.
  - rewrite app_nil_r, lookup_insert_ne by exact Hne. exact IH.
Qed.

(** X19.  Of several files found under the same path the last one found
    stays: the snapshot of a scan maps a path to the last database with that
    path among everything the sources yield, in the order of the sources, and
    has no entry for a path nothing was found under. *)
Theorem scan_keeps_the_last_found (discoverSource : SourceDiscovery) (d : Discovery)
    (p : string) :
  databases (scan discoverSource d).1 !! p
  = last (List.filter (fun db => String.eqb (Path db) p)
                      (allFound discoverSource (sources d))).
Proof.
  cbn. unfold scanSources. rewrite scanSources_databases, lookup_inserted. cbn.
  rewrite lookup_empty. now destruct (last _).
Qed.

(** X20.  A scan depends on the sources and the file system only, and it
    settles: scanning again over the same file system gives the same
    snapshot and emits nothing; the set of watched paths never shrinks. *)
Theorem scan_again_changes_nothing (discoverSource : SourceDiscovery) (d : Discovery) :
  let once := (scan discoverSource d).1 in
  databases (scan discoverSource once).1 = databases once
  /\ (scan discoverSource once).2 = None
  /\ scan discoverSource once = (once, None)
  /\ watched d ⊆ watched once.
Proof.
  intros once.
  assert (Hdb : databases (scan discoverSource once).1 = databases once) by reflexivity.
  assert (Hnone : (scan discoverSource once).2 = None).
  { rewrite scan_emission, Hdb. cbn zeta. now rewrite notIn_self. }
  assert (Hfst : (scan discoverSource once).1 = once).
  { change (Build_Discovery (sources d) (scanSources discoverSource (sources d)).1
              ((watched d ∪ (scanSources discoverSource (sources d)).2)
               ∪ (scanSources discoverSource (sources d)).2)
            = Build_Discovery (sources d) (scanSources discoverSource (sources d)).1
                (watched d ∪ (scanSources discoverSource (sources d)).2)).
    f_equal. apply set_eq. intros x. rewrite !elem_of_union. tauto. }
  split; [exact Hdb|]. split; [exact Hnone|]. split.
  - apply injective_projections; [exact Hfst | exact Hnone].
  - unfold once. cbn. apply union_subseteq_l.
Qed.

End Rescan.

(** Two sources that yield the same path: the entry of the later source
    stays. *)
Example scan_keeps_the_last_found_example :
  let first := Examples.source "/data/a.db" "one" in
  let second := Examples.source "/data/*.db" "two" in
  let fs : database.SourceDiscovery :=
    fun source => Some ([Examples.db "/data/a.db" (config.Alias source) source], ["/data"]) in
  database.databases
    (database.scan (R := MapRange_default) fs (database.NewDiscovery [first; second])).1
    !! "/data/a.db"
  = Some (Examples.db "/data/a.db" "two" second).
Proof. vm_compute. reflexivity. Qed.

(** ** The guards of the data commands *)

Section DataCommands.
Context {L : GoLib} {R : MapRange} {E : database.Engine} {J : GoJSON database.Value}.

Lemma RequireWrite_denied (ctx : cli.CommandContext) (m : database.Manager) (dbName : string) :
  CanWrite (database.GetAccessLevel m (cli.User ctx) dbName) = false ->
  cli.RequireWrite ctx m dbName
  = (cli.fail ctx ("Access denied: no write access to " ++ dbName), false).
Proof. intros Hlevel. unfold cli.RequireWrite. now rewrite Hlevel. Qed.

(** X21.  Insert, update, delete and drop-table ask for write access first:
    for a user whose level on the named database does not allow writing
    (a database that does not resolve counts as level [None]) each of them
    ends with exit code 1 and the message that names the missing write
    access, whatever flags are given, with the manager and the trace of
    engine contacts unchanged. *)
Theorem write_commands_require_write_access
    (h : cli.Handler) (ctx : cli.CommandContext) (m : database.Manager)
    (trace : list database.Event) (now : Z) (dbName tableName : string) (rest : list string) :
  cli.GetPositionalArgs ctx = dbName :: tableName :: rest ->
  CanWrite (database.GetAccessLevel m (cli.User ctx) dbName) = false ->
  let denied := (cli.fail ctx ("Access denied: no write access to " ++ dbName), m, trace) in
  cli.cmdInsert h ctx m trace = denied
  /\ cli.cmdUpdate h ctx m trace = denied
  /\ cli.cmdDelete h ctx m trace = denied
  /\ cli.cmdDropTable h ctx m trace now = denied
  /\ cli.exitCode denied.1.1 = 1.
Proof.
  intros Hargs Hlevel denied.
  pose proof (RequireWrite_denied ctx m dbName Hlevel) as Hreq.
  unfold cli.cmdInsert, cli.cmdUpdate, cli.cmdDelete, cli.cmdDropTable.
  rewrite Hargs, Hreq. now repeat split.
Qed.

(** X22.  Update and insert fail closed.  [cmdUpdate] without a [--where]
    value, without a [--set] value, or with a [--set] text that does not
    decode, and [cmdInsert] without a [--json] value or with one that does not
    decode, end with exit code 1 and leave the manager and the trace of
    engine contacts unchanged. *)
Theorem cmdUpdate_and_cmdInsert_fail_closed
    (h : cli.Handler) (ctx : cli.CommandContext) (m : database.Manager)
    (trace : list database.Event) :
  (cli.GetFlag ctx "where" = "" \/ cli.GetFlag ctx "set" = ""
   \/ (exists err, json_Unmarshal (cli.GetFlag ctx "set") = inr err) ->
   cli.exitCode (cli.cmdUpdate h ctx m trace).1.1 = 1
   /\ (cli.cmdUpdate h ctx m trace).1.2 = m
   /\ (cli.cmdUpdate h ctx m trace).2 = trace)
  /\ (cli.GetFlag ctx "json" = ""
      \/ (exists err, json_Unmarshal (cli.GetFlag ctx "json") = inr err) ->
      cli.exitCode (cli.cmdInsert h ctx m trace).1.1 = 1
      /\ (cli.cmdInsert h ctx m trace).1.2 = m
      /\ (cli.cmdInsert h ctx m trace).2 = trace).
Proof.
  split.
  - intros Hguard. unfold cli.cmdUpdate.
    destruct (cli.GetPositionalArgs ctx) as [|dbName [|tableName rest]];
      [now cbn | now cbn |].
    unfold cli.RequireWrite.
    destruct (negb (CanWrite (database.GetAccessLevel m (cli.User ctx) dbName)));
      [now cbn|].
    destruct (String.eqb_spec (cli.GetFlag ctx "where") "") as [|Hwhere]; [now cbn|].
    destruct (String.eqb_spec (cli.GetFlag ctx "set") "") as [|Hset]; [now cbn|].
    destruct Hguard as [? | [? | [err Herr]]]; [contradiction | contradiction |].
    rewrite Herr. now cbn.
  - intros Hguard. unfold cli.cmdInsert.
    destruct (cli.GetPositionalArgs ctx) as [|dbName [|tableName rest]];
      [now cbn | now cbn |].
    unfold cli.RequireWrite.
    destruct (negb (CanWrite (database.GetAccessLevel m (cli.User ctx) dbName)));
      [now cbn|].
    destruct (String.eqb_spec (cli.GetFlag ctx "json") "") as [|Hjson]; [now cbn|].
    destruct Hguard as [? | [err Herr]]; [contradiction|].
    rewrite Herr. now cbn.
Qed.

(** X23.  Drop-table takes [--confirm] only: when neither [--confirm] nor
    [-confirm] is among the arguments the command ends with exit code 1 and
    leaves the manager and the trace of engine contacts unchanged, also when
    [--force], which delete accepts, is given. *)
Theorem cmdDropTable_requires_confirm
    (h : cli.Handler) (ctx : cli.CommandContext) (m : database.Manager)
    (trace : list database.Event) (now : Z) :
  ~ flagGiven (cli.Args ctx) "confirm" ->
  cli.exitCode (cli.cmdDropTable h ctx m trace now).1.1 = 1
  /\ (cli.cmdDropTable h ctx m trace now).1.2 = m
  /\ (cli.cmdDropTable h ctx m trace now).2 = trace.
Proof.
  intros Hconfirm. apply HasFlag_not_given in Hconfirm. unfold cli.cmdDropTable.
  destruct (cli.GetPositionalArgs ctx) as [|dbName [|tableName rest]];
    [now cbn | now cbn |].
  unfold cli.RequireWrite.
  destruct (negb (CanWrite (database.GetAccessLevel m (cli.User ctx) dbName)));
    [now cbn|].
  rewrite Hconfirm. now cbn.
Qed.

End DataCommands.

Lemma write_commands_require_write_access_witness :
  let reader := Some (Examples.user "anon" false true) in
  let h := {| cli.historyStore := true; cli.version := "dev" |} in
  let ctx := commandContext reader ["test"; "users"; "--where=id=1"; "--confirm"] in
  cli.cmdDelete (L := Examples.lib) (R := MapRange_default) (E := Examples.engine)
    h ctx testManager []
  = (cli.fail ctx "Access denied: no write access to test", testManager, []).
Proof.
  intros reader h ctx.
  apply (proj1 (proj2 (proj2
    (write_commands_require_write_access (L := Examples.lib) (R := MapRange_default)
       (E := Examples.engine) (J := Examples.json) h ctx testManager [] 0
       "test" "users" [] eq_refl eq_refl)))).
Defined.

Lemma cmdUpdate_and_cmdInsert_fail_closed_witness :
  let admin := Some (Examples.user "admin" true false) in
  let h := {| cli.historyStore := true; cli.version := "dev" |} in
  (cli.cmdUpdate (L := Examples.lib) (R := MapRange_default) (E := Examples.engine)
     (J := Examples.json) h (commandContext admin ["test"; "users"; "--set={name:x}"])
     testManager []).2 = []
  /\ (cli.cmdInsert (L := Examples.lib) (R := MapRange_default) (E := Examples.engine)
        (J := Examples.json) h (commandContext admin ["test"; "users"; "--json={oops"])
        testManager []).2 = [].
Proof.
  intros admin h. split.
  - apply (proj1 (cmdUpdate_and_cmdInsert_fail_closed (L := Examples.lib)
                    (R := MapRange_default) (E := Examples.engine) (J := Examples.json) h
                    (commandContext admin ["test"; "users"; "--set={name:x}"]) testManager [])).
    left. vm_compute. reflexivity.
  - apply (proj2 (cmdUpdate_and_cmdInsert_fail_closed (L := Examples.lib)
                    (R := MapRange_default) (E := Examples.engine) (J := Examples.json) h
                    (commandContext admin ["test"; "users"; "--json={oops"]) testManager [])).
    right. exists "invalid character". vm_compute. reflexivity.
Defined.

Lemma cmdDropTable_requires_confirm_witness :
  (cli.cmdDropTable (L := Examples.lib) (R := MapRange_default) (E := Examples.engine)
     (J := Examples.json) {| cli.historyStore := true; cli.version := "dev" |}
     (commandContext (Some (Examples.user "admin" true false)) ["test"; "users"; "--force"])
     testManager [] 0).2 = [].
Proof.
  apply (cmdDropTable_requires_confirm (L := Examples.lib) (R := MapRange_default)
           (E := Examples.engine) (J := Examples.json)
           {| cli.historyStore := true; cli.version := "dev" |}
           (commandContext (Some (Examples.user "admin" true false))
              ["test"; "users"; "--force"]) testManager [] 0).
  unfold flagGiven. apply (bool_decide_unpack _). vm_compute. exact I.
Defined.

(** With the guards passed, insert and drop-table reach the engine. *)
Example data_commands_reach_the_engine :
  let admin := Some (Examples.user "admin" true false) in
  let h := {| cli.historyStore := false; cli.version := "dev" |} in
  (cli.cmdInsert (L := Examples.lib) (R := MapRange_default) (E := Examples.engine)
     (J := Examples.json) h (commandContext admin ["test"; "users"; "--json={name:x}"])
     testManager []).2
  = [database.EvOpen "/data/users.db" "rwc" 5000;
     database.EvExec {| database.Connection_Path := "/data/users.db";
                        database.Connection_ReadOnly := false |}
       ("INSERT INTO " ++ cli.quoted "users" ++ " (" ++ cli.quoted "name" ++ ") VALUES (?)")
       [database.VText "x"]]
  /\ (cli.cmdDropTable (L := Examples.lib) (R := MapRange_default) (E := Examples.engine)
        (J := Examples.json) h (commandContext admin ["test"; "users"; "--confirm"])
        testManager [] 0).2
     = [database.EvOpen "/data/users.db" "rwc" 5000;
        database.EvExec {| database.Connection_Path := "/data/users.db";
                           database.Connection_ReadOnly := false |}
          ("DROP TABLE " ++ cli.quoted "users") []].
Proof. vm_compute. split; reflexivity. Qed.

(** ** Reading flags *)

Section Flags.

Lemma append_assoc (a b c : string) : (a ++ b) ++ c = a ++ (b ++ c).
Proof. induction a as [|x a IH]; [reflexivity|]. rewrite !append_cons. now rewrite IH. Qed.

Lemma prefix_append (p v : string) : String.prefix p (p ++ v) = true.
Proof. apply prefix_beginsWith. now exists v. Qed.

Lemma dropPrefix_append (p v : string) : cli.dropPrefix p (p ++ v) = v.
Proof.
  unfold cli.dropPrefix. rewrite length_append.
  replace (String.length p + String.length v - String.length p)%nat
    with (String.length v) by lia.
  pose proof (substring_of_append p v EmptyString) as Hsub.
  now rewrite append_empty_r in Hsub.
Qed.

(** X24.  [GetFlag] reads the first value given: when the arguments hold
    [--name=value] and no argument before it begins with [--name=] or
    [-name=], the flag reads as [value], whatever follows; the argument
    itself is not among the positional arguments. *)
Theorem GetFlag_reads_the_first_value
    (ctx : cli.CommandContext) (name value : string) (before after : list string) :
  cli.Args ctx = (before ++ ("--" ++ name ++ "=" ++ value)%string :: after)%list ->
  ~ valueGiven before name ->
  cli.GetFlag ctx name = value
  /\ cli.GetPositionalArgs ctx
     = (List.filter (fun arg => negb (String.prefix "-" arg)) before
        ++ List.filter (fun arg => negb (String.prefix "-" arg)) after)%list.
Proof.
  intros Hargs Hbefore. split.
  - unfold cli.GetFlag. rewrite Hargs. clear Hargs.
    induction before as [|arg before IH].
    + cbn [app cli.flagValue].
      replace ("--" ++ name ++ "=" ++ value) with (("--" ++ name ++ "=") ++ value)
        by now rewrite !append_assoc.
      now rewrite prefix_append, dropPrefix_append.
    + cbn [app cli.flagValue].
      destruct (String.prefix ("--" ++ name ++ "=") arg) eqn:Hlong.
      { destruct Hbefore. exists arg. split; [now left | now left]. }
      destruct (String.prefix ("-" ++ name ++ "=") arg) eqn:Hshort.
      { destruct Hbefore. exists arg. split; [now left | now right]. }
      apply IH. intros (arg' & Hin & Hprefix). apply Hbefore.
      exists arg'. split; [now right | exact Hprefix].
  - unfold cli.GetPositionalArgs. rewrite Hargs, List.filter_app. cbn [List.filter].
    now rewrite !append_cons.
Qed.

End Flags.

Lemma GetFlag_reads_the_first_value_witness :
  cli.GetFlag (commandContext None ["test"; "users"; "--where=id=1"; "--where=id=2"]) "where"
  = "id=1".
Proof.
  apply (GetFlag_reads_the_first_value
           (commandContext None ["test"; "users"; "--where=id=1"; "--where=id=2"])
           "where" "id=1" ["test"; "users"] ["--where=id=2"] eq_refl).
  intros (arg & Hin & Hprefix).
  apply list_elem_of_In in Hin. cbn in Hin.
  destruct Hin as [<- | [<- | []]]; vm_compute in Hprefix; destruct Hprefix; discriminate.
Defined.

(** ** The two classifiers *)

Section TwoClassifiers.

Lemma mapBytes_append (f : ascii -> ascii) (a b : string) :
  mapBytes f (a ++ b) = mapBytes f a ++ mapBytes f b.
Proof.
  induction a as [|c a IH]; [reflexivity|].
  rewrite append_cons. cbn [mapBytes]. now rewrite append_cons, IH.
Qed.

Lemma beginsWith_append (s keyword rest : string) :
  beginsWith s keyword -> beginsWith (s ++ rest) keyword.
Proof. intros [tail ->]. exists (tail ++ rest). apply append_assoc. Qed.

(** [s[start:]] after the first loop of [trim]. *)
Lemma slice_trimStart (s : string) :
  slice s (cli.trimStart s) (len s) = dropLeadingSpaceTab s.
Proof.
  unfold slice, len. induction s as [|c s IH]; [reflexivity|].
  cbn [cli.trimStart dropLeadingSpaceTab].
  assert (Hnn : 0 <= cli.trimStart s).
  { clear. induction s as [|c s IH]; cbn; [lia|]. destruct (cli.isSpaceOrTab c); lia. }
  destruct (cli.isSpaceOrTab c).
  - replace (Z.to_nat (1 + cli.trimStart s)) with (S (Z.to_nat (cli.trimStart s))) by lia.
    replace (Z.to_nat (Z.of_nat (String.length (String c s)) - (1 + cli.trimStart s)))
      with (Z.to_nat (Z.of_nat (String.length s) - cli.trimStart s))
      by (cbn [String.length]; lia).
    exact IH.
  - replace (Z.to_nat (Z.of_nat (String.length (String c s)) - 0))
      with (S (String.length s)) by (cbn [String.length]; lia).
    cbn. f_equal. apply substring_all. lia.
Qed.

(** What the second loop of [trim] drops is a tail. *)
Lemma dropTrailing_prefix (s : string) : exists tail, s = cli.dropTrailing s ++ tail.
Proof.
  induction s as [|c s [tail IH]]; [now exists EmptyString|].
  cbn [cli.dropTrailing]. destruct (cli.dropTrailing s) as [|c' rest] eqn:Hrest.
  - destruct (cli.isSpaceOrTab c).
    + now exists (String c s).
    + exists s. now rewrite append_cons, append_empty_l.
  - exists tail. rewrite append_cons. now rewrite <- IH.
Qed.

Lemma trimLeadingWhitespace_dropLeading (s : string) :
  trimLeadingWhitespace (dropLeadingSpaceTab s) = trimLeadingWhitespace s.
Proof.
  induction s as [|c s IH]; [reflexivity|]. cbn [dropLeadingSpaceTab].
  destruct (cli.isSpaceOrTab c) eqn:Hc; [|reflexivity].
  cbn [trimLeadingWhitespace]. rewrite IH.
  replace (isWhitespace c) with true; [reflexivity|].
  revert Hc. destruct c as [[] [] [] [] [] [] [] []]; cbv; congruence.
Qed.

(** A string that begins, upper-cased, with a letter has no white space in
    front. *)
Lemma trimLeadingWhitespace_letter (s keyword : string) :
  keyword ∈ readOnlyKeywords ->
  beginsWith (uppercase s) keyword ->
  trimLeadingWhitespace s = s.
Proof.
  intros Hin [tail Hs]. destruct s as [|c s]; [reflexivity|].
  cbn [trimLeadingWhitespace].
  apply list_elem_of_In in Hin. cbn in Hin.
  assert (Hc : In (upperByte c) [ascii_of_nat 83; ascii_of_nat 80; ascii_of_nat 69;
                                 ascii_of_nat 87]).
  { destruct Hin as [<- | [<- | [<- | [<- | []]]]];
      unfold uppercase in Hs; cbn [mapBytes] in Hs; rewrite append_cons in Hs;
      injection Hs as -> _; cbn; tauto. }
  destruct (isWhitespace c) eqn:Hw; [exfalso|reflexivity].
  revert Hw Hc. clear.
  destruct c as [[] [] [] [] [] [] [] []]; cbv; intros Hw Hc;
    try discriminate; intuition discriminate.
Qed.

(** X25.  The command line's classifier is the stricter of the two: a
    statement it takes for read-only, the manager's classifier takes for
    read-only as well. *)
Theorem cli_read_only_implies_manager_read_only (query : string) :
  cli.isReadOnlyQuery query = true -> database.isReadOnlyQuery query = true.
Proof.
  intros Hcli. apply isReadOnlyQuery_true.
  assert (Hkw : exists keyword, keyword ∈ readOnlyKeywords
                  /\ beginsWith (uppercase (cli.trim query)) keyword).
  { unfold cli.isReadOnlyQuery in Hcli.
    change cli.hasPrefix with database.hasPrefix in Hcli.
    rewrite !hasPrefix_prefix in Hcli. unfold cli.toUpper in Hcli.
    repeat (apply orb_true_iff in Hcli as [Hcli | Hcli]);
      apply prefix_beginsWith in Hcli;
      [exists "SELECT" | exists "PRAGMA" | exists "EXPLAIN" | exists "WITH"];
      (split; [unfold readOnlyKeywords; repeat first [now left | right] | exact Hcli]). }
  destruct Hkw as (keyword & Hin & Hbegins). exists keyword. split; [exact Hin|].
  unfold cli.trim in Hbegins. rewrite slice_trimStart in Hbegins.
  destruct (dropTrailing_prefix (dropLeadingSpaceTab query)) as [tail Htail].
  assert (Hfull : beginsWith (uppercase (dropLeadingSpaceTab query)) keyword).
  { rewrite Htail. unfold uppercase. rewrite mapBytes_append.
    now apply beginsWith_append. }
  rewrite <- trimLeadingWhitespace_dropLeading.
  now rewrite (trimLeadingWhitespace_letter _ keyword Hin Hfull).
Qed.

End TwoClassifiers.

Lemma cli_read_only_implies_manager_read_only_witness :
  database.isReadOnlyQuery "  select * from users  " = true.
Proof.
  apply cli_read_only_implies_manager_read_only. vm_compute. reflexivity.
Defined.

(** The converse fails: a line feed in front of the keyword is trimmed by the
    manager's classifier and not by the command line's. *)
Example classifiers_differ :
  let query := String (ascii_of_nat 10) "SELECT 1" in
  database.isReadOnlyQuery query = true /\ cli.isReadOnlyQuery query = false.
Proof. vm_compute. split; reflexivity. Qed.

(** ** Statements built from identifiers and values *)

Section Builders.
Import database.
Context {L : GoLib} {R : MapRange} {E : Engine}.

Lemma Query_oneCall (trace : list Event) (conn : Connection) (query : string)
    (args : list Value) :
  oneCall conn query args trace (Query trace conn query args).2.
Proof.
  unfold Query, oneCall.
  destruct (_ || _ || _ || _).
  - left. unfold executeSelect. destruct (engine_query _ _ _ _) as [| | |? ? []]; reflexivity.
  - right. unfold executeExec. now destruct (engine_exec _ _ _ _).
Qed.

Lemma size_zero_empty (data : gmap string Value) :
  (Z.of_nat (size data) =? 0) = true <-> data = ∅.
Proof.
  rewrite Z.eqb_eq. split.
  - intros Hsize. apply map_size_empty_iff. lia.
  - intros ->. now rewrite map_size_empty.
Qed.

(** X26.  [Insert] and [Update] send values as parameters only.  With no
    data they return an error and make no call.  Otherwise they make exactly
    one call on the connection: the statement names the table and the
    columns, each quoted, with one question mark per column, and the values
    are the parameters, in the order in which the columns are named (the
    order the map was visited in), followed for [Update] by the arguments of
    the WHERE clause; the clause is added as given, and left out when empty. *)
Theorem Insert_and_Update_bind_values_as_parameters
    (trace : list Event) (conn : Connection) (tableName : string)
    (data : gmap string Value) (where_ : string) (whereArgs : list Value) :
  (data = ∅ ->
     Insert trace conn tableName data = ((None, Some "no data to insert"), trace)
     /\ Update trace conn tableName data where_ whereArgs
        = ((None, Some "no data to update"), trace))
  /\ (data <> ∅ ->
      exists entries,
        entries ≡ₚ map_to_list data
        /\ oneCall conn
             ("INSERT INTO " ++ quoteIdentifier tableName ++ " ("
              ++ String.concat ", " (quoteIdentifier <$> entries.*1) ++ ") VALUES ("
              ++ String.concat ", " (replicate (length entries) "?") ++ ")")
             entries.*2 trace (Insert trace conn tableName data).2
        /\ oneCall conn
             ("UPDATE " ++ quoteIdentifier tableName ++ " SET "
              ++ String.concat ", " ((fun col => quoteIdentifier col ++ " = ?") <$> entries.*1)
              ++ (if String.eqb where_ "" then "" else " WHERE " ++ where_))
             (entries.*2 ++ whereArgs) trace
             (Update trace conn tableName data where_ whereArgs).2).
Proof.
  split.
  - intros ->. unfold Insert, Update. now rewrite map_size_empty.
  - intros Hdata. exists (rangeMap data). split; [apply rangeMap_perm|].
    assert (Hsize : (Z.of_nat (size data) =? 0) = false).
    { destruct (Z.of_nat (size data) =? 0) eqn:Hz; [|reflexivity].
      now apply size_zero_empty in Hz. }
    unfold Insert, Update. rewrite Hsize. split.
    + replace (replicate (length (rangeMap data)) "?")
        with ((fun _ : string * Value => "?") <$> rangeMap data)
        by (induction (rangeMap data) as [|kv l IH]; [reflexivity | cbn; now rewrite IH]).
      apply Query_oneCall.
    + destruct (String.eqb where_ ""); cbn [negb].
      * rewrite ?append_assoc, ?append_empty_r. apply Query_oneCall.
      * rewrite ?append_assoc. apply Query_oneCall.
Qed.

(** X27.  [Delete] makes exactly one call, with the table name quoted and
    the WHERE clause as given; an empty clause is left out, so the statement
    then covers the whole table. *)
Theorem Delete_sends_one_statement
    (trace : list Event) (conn : Connection) (tableName where_ : string)
    (whereArgs : list Value) :
  oneCall conn
    ("DELETE FROM " ++ quoteIdentifier tableName
     ++ (if String.eqb where_ "" then "" else " WHERE " ++ where_))
    whereArgs trace (Delete trace conn tableName where_ whereArgs).2.
Proof.
  unfold Delete. destruct (String.eqb where_ ""); cbn [negb].
  - rewrite ?append_assoc, ?append_empty_r. apply Query_oneCall.
  - rewrite ?append_assoc. apply Query_oneCall.
Qed.

End Builders.

Lemma Insert_and_Update_bind_values_as_parameters_witness :
  (database.Insert (L := Examples.lib) (R := MapRange_default) (E := Examples.engine)
     [] {| database.Connection_Path := "/data/users.db"; database.Connection_ReadOnly := false |}
     "users" ∅).1 = (None, Some "no data to insert").
Proof.
  apply (f_equal fst (proj1 (proj1
    (Insert_and_Update_bind_values_as_parameters (L := Examples.lib) (R := MapRange_default)
       (E := Examples.engine) []
       {| database.Connection_Path := "/data/users.db"; database.Connection_ReadOnly := false |}
       "users" ∅ "" []) eq_refl))).
Defined.

(** ** Splitting a column list *)

Lemma substring_split (s : string) (a b c : nat) :
  String.substring a (b + c) s = String.substring a b s ++ String.substring (a + b) c s.
Proof.
  revert a b. induction s as [|x s IH]; intros a b.
  - destruct a, b, c; reflexivity.
  - destruct a as [|a].
    + destruct b as [|b]; [reflexivity|].
      cbn [String.substring Nat.add]. rewrite append_cons. f_equal. apply (IH 0%nat b).
    + cbn [String.substring Nat.add]. apply IH.
Qed.

Lemma slice_split (s : string) (a b c : Z) :
  0 <= a <= b -> b <= c -> slice s a c = slice s a b ++ slice s b c.
Proof.
  intros Hab Hbc. unfold slice.
  replace (Z.to_nat (c - a)) with (Z.to_nat (b - a) + Z.to_nat (c - b))%nat by lia.
  rewrite substring_split. do 2 f_equal. lia.
Qed.

Lemma slice_empty (s : string) (a : Z) : slice s a a = "".
Proof.
  unfold slice. rewrite Z.sub_diag. cbn. generalize (Z.to_nat a). clear.
  induction s as [|x s IH]; intros [|n]; cbn; try reflexivity. apply IH.
Qed.

Lemma slice_whole (s : string) : slice s 0 (len s) = s.
Proof. unfold slice, len. apply substring_all. lia. Qed.

Lemma slice_one (s : string) (i : Z) :
  0 <= i < len s -> exists x, slice s i (i + 1) = String x "".
Proof.
  unfold slice, len. intros Hi.
  replace (Z.to_nat (i + 1 - i)) with 1%nat by lia.
  assert (Hn : (Z.to_nat i < String.length s)%nat) by lia.
  revert Hn. generalize (Z.to_nat i). clear. induction s as [|x s IH]; intros [|n] Hn.
  - cbn in Hn. lia.
  - cbn in Hn. lia.
  - exists x. cbn. now destruct s.
  - cbn. apply IH. cbn in Hn. lia.
Qed.

Lemma containsByte_append (c : ascii) (a b : string) :
  containsByte c (a ++ b) = containsByte c a || containsByte c b.
Proof.
  induction a as [|x a IH]; [reflexivity|].
  rewrite append_cons. cbn. now rewrite IH, orb_assoc.
Qed.

Lemma concat_snoc (sep a b : string) (r : list string) :
  String.concat sep (r ++ [a ++ sep ++ b]) = String.concat sep (r ++ [a; b]).
Proof.
  induction r as [|x r IH]; [reflexivity|].
  cbn [app String.concat]. rewrite IH. now destruct r.
Qed.

Lemma concat_snoc_last (sep a b : string) (r : list string) :
  String.concat sep ((r ++ [a]) ++ [b]) = String.concat sep (r ++ [a ++ sep ++ b]).
Proof. now rewrite <- app_assoc, concat_snoc. Qed.

(** The loop of [split] on a one-byte separator, from index [i] on: it does
    not panic, the parts still join to the same string, and no part holds
    the separating byte. *)
Lemma split_loop (s : string) (c : ascii) (k : nat) :
  forall (i start : Z) (result : list string),
    0 <= start <= i -> i + Z.of_nat k = len s ->
    Forall (lacks c) result -> lacks c (slice s start i) ->
    exists start' result',
      foldl (cli.splitStep s (String c "")) (Some (start, result)) (seqZ i (Z.of_nat k))
      = Some (start', result')
      /\ 0 <= start' <= len s
      /\ String.concat (String c "") (result' ++ [slice s start' (len s)])
         = String.concat (String c "") (result ++ [slice s start (len s)])
      /\ Forall (lacks c) result'
      /\ lacks c (slice s start' (len s)).
Proof.
  induction k as [|k IH]; intros i start result Hstart Hlen Hres Hcur.
  - cbn. exists start, result. replace (len s) with i by lia.
    repeat split; try lia; assumption.
  - rewrite seqZ_cons by lia. cbn [foldl].
    replace (Z.pred (Z.of_nat (S k))) with (Z.of_nat k) by lia.
    destruct (slice_one s i) as [x Hx]; [lia|].
    unfold cli.splitStep at 2. change (len (String c "")) with 1.
    rewrite Hx. destruct (String.eqb (String x "") (String c "")) eqn:Hmatch.
    + apply String.eqb_eq in Hmatch. injection Hmatch as ->.
      destruct (Z.leb_spec start i) as [_|]; [|lia].
      destruct (IH (Z.succ i) (i + 1) (result ++ [slice s start i])%list)
        as (start' & result' & Hfold & Hrange & Hjoin & Hparts & Hlast).
      * lia.
      * lia.
      * apply Forall_app. split; [assumption|]. now constructor.
      * replace (Z.succ i) with (i + 1) by lia. now rewrite slice_empty.
      * exists start', result'. repeat split; try assumption; try lia.
        rewrite Hjoin, concat_snoc_last. do 3 f_equal.
        rewrite (slice_split s start i (len s)) by lia.
        rewrite (slice_split s i (i + 1) (len s)) by lia.
        now rewrite Hx.
    + destruct (IH (Z.succ i) start result)
        as (start' & result' & Hfold & Hrange & Hjoin & Hparts & Hlast).
      * lia.
      * lia.
      * assumption.
      * replace (Z.succ i) with (i + 1) by lia.
        unfold lacks. rewrite (slice_split s start i (i + 1)) by lia.
        rewrite containsByte_append, Hcur, Hx. cbn.
        destruct (Ascii.eqb x c) eqn:Hxc; [|reflexivity].
        apply Ascii.eqb_eq in Hxc. subst x. now rewrite String.eqb_refl in Hmatch.
      * exists start', result'. repeat split; try assumption; lia.
Qed.

Lemma split_parts (s : string) (c : ascii) :
  exists parts,
    cli.split s (String c "") = Some parts
    /\ String.concat (String c "") parts = s
    /\ parts <> []
    /\ Forall (lacks c) parts.
Proof.
  destruct (split_loop s c (String.length s) 0 0 [])
    as (start' & result' & Hfold & Hrange & Hjoin & Hparts & Hlast).
  - lia.
  - reflexivity.
  - constructor.
  - now rewrite slice_empty.
  - exists (result' ++ [slice s start' (len s)])%list.
    unfold cli.split. change (len (String c "")) with 1.
    replace (len s - 1 + 1) with (Z.of_nat (String.length s)) by (unfold len; lia).
    rewrite Hfold. repeat split.
    + rewrite Hjoin. cbn. apply slice_whole.
    + now destruct result'.
    + apply Forall_app. split; [assumption|]. now constructor.
Qed.

(** X28.  On a separator of one byte [split] never panics; the parts it
    returns, joined with the separator, give the string back; there is at
    least one part and none holds the separating byte. *)
Theorem split_on_one_byte (s : string) (c : ascii) :
  exists parts,
    cli.split s (String c "") = Some parts
    /\ String.concat (String c "") parts = s
    /\ parts <> []
    /\ Forall (lacks c) parts.
Proof. apply split_parts. Qed.

(** With a longer separator the slice can panic: in [aaa] the separator
    [aa] matches at 0 and again at 1, where [start] is already 2. *)
Example split_overlapping_matches : cli.split "aaa" "aa" = None.
Proof. reflexivity. Qed.

(** Parts free of the separating byte are determined by their join. *)
Lemma lacks_not_joined (c : ascii) (a a' r : string) :
  lacks c a -> a <> a' ++ String c r.
Proof.
  intros Ha ->. unfold lacks in Ha. rewrite containsByte_append in Ha. cbn in Ha.
  rewrite (proj2 (Ascii.eqb_eq c c) eq_refl) in Ha. cbn in Ha.
  now rewrite orb_true_r in Ha.
Qed.

Lemma joined_inj (c : ascii) (a a' r r' : string) :
  lacks c a -> lacks c a' -> a ++ String c r = a' ++ String c r' -> a = a' /\ r = r'.
Proof.
  revert a'. induction a as [|x a IH]; intros [|y a'] Ha Ha' Heq.
  - rewrite !append_empty_l in Heq. now injection Heq.
  - rewrite append_empty_l, append_cons in Heq. injection Heq as -> _.
    unfold lacks in Ha'. cbn in Ha'. now rewrite (proj2 (Ascii.eqb_eq y y) eq_refl) in Ha'.
  - rewrite append_empty_l, append_cons in Heq. injection Heq as -> _.
    unfold lacks in Ha. cbn in Ha. now rewrite (proj2 (Ascii.eqb_eq c c) eq_refl) in Ha.
  - rewrite !append_cons in Heq. injection Heq as -> Heq.
    unfold lacks in Ha, Ha'. cbn in Ha, Ha'.
    apply orb_false_iff in Ha as [_ Ha]. apply orb_false_iff in Ha' as [_ Ha'].
    destruct (IH a' Ha Ha' Heq) as [-> ->]. now split.
Qed.

Lemma concat_cons2 (sep x y : string) (l : list string) :
  String.concat sep (x :: y :: l) = x ++ sep ++ String.concat sep (y :: l).
Proof. reflexivity. Qed.

Lemma concat_inj (c : ascii) (parts : list string) :
  forall parts', parts <> [] -> parts' <> [] ->
    Forall (lacks c) parts -> Forall (lacks c) parts' ->
    String.concat (String c "") parts = String.concat (String c "") parts' ->
    parts = parts'.
Proof.
  induction parts as [|x xs IH]; intros [|y ys] Hne Hne' Hall Hall' Heq; try congruence.
  apply Forall_cons in Hall as [Hx Hxs]. apply Forall_cons in Hall' as [Hy Hys].
  destruct xs as [|x2 xs], ys as [|y2 ys].
  - cbn in Heq. now subst.
  - rewrite concat_cons2, append_cons, append_empty_l in Heq. cbn [String.concat] in Heq.
    now apply lacks_not_joined in Heq.
  - rewrite concat_cons2, append_cons, append_empty_l in Heq. cbn [String.concat] in Heq.
    symmetry in Heq. now apply lacks_not_joined in Heq.
  - rewrite !concat_cons2, !append_cons, !append_empty_l in Heq.
    destruct (joined_inj c _ _ _ _ Hx Hy Heq) as [-> Hrest].
    f_equal. apply IH; try assumption; discriminate.
Qed.

Lemma dropTrailing_idempotent (s : string) :
  cli.dropTrailing (cli.dropTrailing s) = cli.dropTrailing s.
Proof.
  induction s as [|c s IH]; [reflexivity|].
  cbn [cli.dropTrailing]. destruct (cli.dropTrailing s) as [|c' rest] eqn:Hrest.
  - destruct (cli.isSpaceOrTab c) eqn:Hc; [reflexivity|]. cbn. now rewrite Hc.
  - cbn [cli.dropTrailing] in IH |- *. now rewrite IH.
Qed.

Lemma dropTrailing_head (c : ascii) (s : string) :
  cli.isSpaceOrTab c = false -> exists rest, cli.dropTrailing (String c s) = String c rest.
Proof.
  intros Hc. cbn [cli.dropTrailing]. destruct (cli.dropTrailing s) as [|c' rest].
  - rewrite Hc. now exists "".
  - now exists (String c' rest).
Qed.

Lemma dropLeadingSpaceTab_head (s : string) :
  dropLeadingSpaceTab s = ""
  \/ exists c rest, dropLeadingSpaceTab s = String c rest /\ cli.isSpaceOrTab c = false.
Proof.
  induction s as [|c s IH]; [now left|].
  cbn [dropLeadingSpaceTab]. destruct (cli.isSpaceOrTab c) eqn:Hc; [exact IH|].
  right. now exists c, s.
Qed.

Lemma dropLeadingSpaceTab_suffix (s : string) : exists pre, s = pre ++ dropLeadingSpaceTab s.
Proof.
  induction s as [|c s [pre IH]]; [now exists ""|].
  cbn [dropLeadingSpaceTab]. destruct (cli.isSpaceOrTab c).
  - exists (String c pre). now rewrite append_cons, <- IH.
  - now exists "".
Qed.

Lemma trim_spec (s : string) : cli.trim s = cli.dropTrailing (dropLeadingSpaceTab s).
Proof. unfold cli.trim. now rewrite slice_trimStart. Qed.

Lemma trim_idempotent (s : string) : cli.trim (cli.trim s) = cli.trim s.
Proof.
  rewrite !trim_spec.
  destruct (dropLeadingSpaceTab_head s) as [-> | (c & rest & -> & Hc)]; [reflexivity|].
  destruct (dropTrailing_head c rest Hc) as [rest' Hrest]. rewrite Hrest.
  cbn [dropLeadingSpaceTab]. rewrite Hc, <- Hrest. apply dropTrailing_idempotent.
Qed.

Lemma trim_lacks (c : ascii) (s : string) : lacks c s -> lacks c (cli.trim s).
Proof.
  unfold lacks. intros Hs. rewrite trim_spec.
  destruct (dropLeadingSpaceTab_suffix s) as [pre Hpre].
  destruct (dropTrailing_prefix (dropLeadingSpaceTab s)) as [tail Htail].
  rewrite Hpre, Htail, !containsByte_append in Hs.
  apply orb_false_iff in Hs as [_ Hs]. now apply orb_false_iff in Hs as [Hs _].
Qed.

Lemma filter_columnName (parts : list string) :
  Forall columnName parts ->
  List.filter (fun p => negb (String.eqb p "")) parts = parts.
Proof.
  induction 1 as [|p parts [Hp _] _ IH]; [reflexivity|].
  cbn. apply String.eqb_neq in Hp. rewrite Hp. cbn. now rewrite IH.
Qed.

Lemma trimmed_parts (parts : list string) :
  Forall (lacks comma) parts ->
  Forall columnName (List.filter (fun p => negb (String.eqb p "")) (cli.trim <$> parts)).
Proof.
  induction 1 as [|p parts Hp _ IH]; [constructor|].
  cbn. destruct (String.eqb (cli.trim p) "") eqn:Hempty; cbn; [exact IH|].
  constructor; [|exact IH]. repeat split.
  - now apply String.eqb_neq.
  - now apply trim_lacks.
  - apply trim_idempotent.
Qed.

(** X29.  [parseColumns] never panics and returns column names only: each
    is non-empty, holds no comma, and has no space or tab left to trim. *)
Theorem parseColumns_returns_column_names (s : string) :
  exists cols, cli.parseColumns s = Some cols /\ Forall columnName cols.
Proof.
  unfold cli.parseColumns. destruct (String.eqb s ""); [exists []; now split|].
  unfold cli.splitTrim.
  destruct (split_parts s comma) as (parts & Hsplit & _ & _ & Hparts).
  change (String comma "") with "," in Hsplit. rewrite Hsplit.
  pose proof (trimmed_parts parts Hparts) as Hnames.
  rewrite (filter_columnName _ Hnames). now eexists.
Qed.

Lemma concat_not_empty (sep p : string) (parts : list string) :
  p <> "" -> String.concat sep (p :: parts) <> "".
Proof.
  intros Hp. destruct parts as [|q parts]; [exact Hp|].
  rewrite concat_cons2. destruct p; [congruence|]. now rewrite append_cons.
Qed.

Lemma fmap_trim_columnName (cols : list string) :
  Forall columnName cols -> cli.trim <$> cols = cols.
Proof.
  induction 1 as [|col cols (_ & _ & Htrim) _ IH]; [reflexivity|].
  cbn. now rewrite Htrim, IH.
Qed.

(** X30.  A list of column names joined with commas is parsed back to the
    same list. *)
Theorem parseColumns_round_trip (cols : list string) :
  Forall columnName cols -> cli.parseColumns (String.concat "," cols) = Some cols.
Proof.
  intros Hcols. destruct cols as [|col cols]; [reflexivity|].
  unfold cli.parseColumns.
  pose proof (Forall_inv Hcols) as (Hcol & _ & _).
  pose proof (concat_not_empty "," col cols Hcol) as Hne.
  apply String.eqb_neq in Hne. rewrite Hne.
  destruct (split_parts (String.concat "," (col :: cols)) comma)
    as (parts & Hsplit & Hjoin & Hparts & Hlacks).
  assert (Hsame : parts = col :: cols).
  { apply (concat_inj comma); try assumption; try discriminate.
    eapply Forall_impl; [exact Hcols|]. now intros c (_ & Hc & _). }
  subst parts. unfold cli.splitTrim. change (String comma "") with "," in Hsplit.
  rewrite Hsplit, (fmap_trim_columnName _ Hcols).
  now rewrite !(filter_columnName _ Hcols).
Qed.

Lemma parseColumns_round_trip_witness :
  cli.parseColumns "id,first name,email" = Some ["id"; "first name"; "email"].
Proof.
  apply (parseColumns_round_trip ["id"; "first name"; "email"]).
  repeat constructor; try discriminate; vm_compute; reflexivity.
Defined.
